(** * MotorDriveConsumption: the rolling Wh/km estimator of dbus-systemcalc-py

    A shallow embedding of [delegates/motordriveconsumption.py].

    Numbers.  The delegate computes on Python [float]s.  The instance is
    embedded over exact rationals [Q], the exact-arithmetic reading of that
    computation; equality of numbers is [Qeq], written [==].  What is stated
    about it below are facts of control flow, of frame and of order that the
    rounded computation shares.  Where rounding decides, [_accumulate] is
    also given in binary64 ([Module Binary64], on primitive floats), and run.

    The [math] module ([sin], [cos], [sqrt], [atan2], [exp], [radians],
    [degrees]) is an interface, [MathLib]; the delegate is embedded over any
    implementation of it.

    State.  The instance attributes of the class are the fields of the record
    [MotorDriveConsumption]; every method takes the instance and returns the
    updated one.  The [while] loop of [_accumulate] is run with fuel. *)

From Stdlib Require Import QArith Qabs Qround Qminmax Lqa ZArith Lia.
From Stdlib Require Import PrimFloat.
From stdpp Require Import base option list strings gmap.

Set Warnings "-inexact-float".

Local Open Scope Q_scope.

(** ** Module constants *)

Definition PREFIX : string := "/MotorDrive".

Definition MINIMUM_SPEED_MS : Q := 3 # 10.
Definition MAXIMUM_SPEED_MS : Q := 20.
Definition BEARING_CHECK_MINIMUM_DISTANCE_M : Q := 1.
Definition BEARING_CHECK_THRESHOLD_DEGREES : Q := 45.
Definition POWER_EMA_MS : Q := 3000.
Definition WINDOW_SEGMENT_COUNT : nat := 50.
Definition WINDOW_SEGMENT_SIZE_M : Q := 37.

(** ** Numbers *)

(** [a < b] as a test. *)
Definition Qltb (a b : Q) : bool := negb (Qle_bool b a).

(** Python's [x % m] on numbers, for a positive modulus: the result has the
    sign of [m] (floored division). *)
Definition Qmod (x m : Q) : Q := x - m * inject_Z (Qfloor (x / m)).

(** Python's [min(a, b)]: [b] when [b < a], otherwise [a]. *)
Definition py_min (a b : Q) : Q := if Qltb b a then b else a.

(** ** Data *)

(** One slot of the ring: the two-element list [[distance, energy]]. *)
Record Segment := mkSegment { seg_distance : Q; seg_energy : Q }.

(** The dict [{"utc_time": .., "latitude": .., "longitude": ..}]. *)
Record Point := mkPoint { utc_time : Z; latitude : Q; longitude : Q }.

Record MotorDriveConsumption := mkMotorDriveConsumption {
  last_point : option Point;
  last_bearing : option Q;
  is_continuous : bool;
  power_ema : option Q;
  consumption_window : list Segment;
  consumption_window_index : nat;
  consumption_window_total_distance : Q;
  consumption_window_total_energy : Q
}.

(** What a call can do: return, raise [IndexError] on a list access out of
    range, or still be looping when the fuel is spent. *)
Inductive outcome (A : Type) : Type :=
| Returned (a : A)
| IndexError
| OutOfFuel.
Arguments Returned {A} a.
Arguments IndexError {A}.
Arguments OutOfFuel {A}.

(** [__init__] *)
Definition __init__ : MotorDriveConsumption :=
  {| last_point := None;
     last_bearing := None;
     is_continuous := false;
     power_ema := None;
     consumption_window := replicate WINDOW_SEGMENT_COUNT (mkSegment 0 0);
     consumption_window_index := 0;
     consumption_window_total_distance := 0;
     consumption_window_total_energy := 0 |}.

(** Assignments to the window attributes; the filter attributes are kept. *)
Definition with_window (self : MotorDriveConsumption) (cw : list Segment)
    (idx : nat) (td te : Q) : MotorDriveConsumption :=
  {| last_point := last_point self;
     last_bearing := last_bearing self;
     is_continuous := is_continuous self;
     power_ema := power_ema self;
     consumption_window := cw;
     consumption_window_index := idx;
     consumption_window_total_distance := td;
     consumption_window_total_energy := te |}.

(** ** [_accumulate] *)

(** One pass through the body of [while distance > 0]: the instance and the
    locals [distance], [energy] after it; [None] is an [IndexError]. *)
Definition accumulate_body (self : MotorDriveConsumption) (distance energy : Q)
    : option (MotorDriveConsumption * Q * Q) :=
  let cw := consumption_window self in
  let i := consumption_window_index self in
  seg ← cw !! i;
  let segment_remaining_distance := WINDOW_SEGMENT_SIZE_M - seg_distance seg in
  if Qltb distance segment_remaining_distance then
    (* Fits in current segment *)
    let cw1 := <[i := mkSegment (seg_distance seg + distance)
                                (seg_energy seg + energy)]> cw in
    Some (with_window self cw1 i
            (consumption_window_total_distance self)
            (consumption_window_total_energy self), 0, 0)
  else
    (* Fill up current segment and move to next *)
    let ratio := segment_remaining_distance / distance in
    let cw1 := <[i := mkSegment (seg_distance seg + segment_remaining_distance)
                                (seg_energy seg + energy * ratio)]> cw in
    let distance' := distance - segment_remaining_distance in
    let energy' := energy - energy * ratio in
    let j := ((i + 1) mod WINDOW_SEGMENT_COUNT)%nat in
    (* Subtract the segment that is being overwritten *)
    old ← cw1 !! j;
    let td := consumption_window_total_distance self - seg_distance old in
    let te := consumption_window_total_energy self - seg_energy old in
    (* Reset the segment *)
    let cw2 := <[j := mkSegment 0 0]> cw1 in
    Some (with_window self cw2 j td te, distance', energy').

(** [while distance > 0: body].  The division in the body is by a positive
    [distance], so no [ZeroDivisionError] can be raised there. *)
Fixpoint accumulate_loop (fuel : nat) (self : MotorDriveConsumption)
    (distance energy : Q) : outcome MotorDriveConsumption :=
  if Qltb 0 distance then
    match fuel with
    | O => OutOfFuel
    | S fuel' =>
        match accumulate_body self distance energy with
        | None => IndexError
        | Some (self', distance', energy') =>
            accumulate_loop fuel' self' distance' energy'
        end
    end
  else Returned self.

Definition _accumulate (fuel : nat) (self : MotorDriveConsumption)
    (distance energy : Q) : outcome MotorDriveConsumption :=
  let self1 :=
    with_window self (consumption_window self) (consumption_window_index self)
      (consumption_window_total_distance self + distance)
      (consumption_window_total_energy self + energy) in
  accumulate_loop fuel self1 distance energy.

(** ** The [math] module *)

Class MathLib := {
  radians : Q -> Q;
  degrees : Q -> Q;
  sin : Q -> Q;
  cos : Q -> Q;
  sqrt : Q -> Q;
  atan2 : Q -> Q -> Q;
  exp : Q -> Q
}.

(** The one fact about [math] that a proof below relies on: [exp(0) = 1]. *)
Class MathLibLaws (M : MathLib) := {
  exp_at_zero : forall x : Q, x == 0 -> exp x == 1
}.

(** ** Assignments to the filter attributes *)

Definition set_is_continuous (self : MotorDriveConsumption) (b : bool)
    : MotorDriveConsumption :=
  {| last_point := last_point self;
     last_bearing := last_bearing self;
     is_continuous := b;
     power_ema := power_ema self;
     consumption_window := consumption_window self;
     consumption_window_index := consumption_window_index self;
     consumption_window_total_distance := consumption_window_total_distance self;
     consumption_window_total_energy := consumption_window_total_energy self |}.

Definition set_last_bearing (self : MotorDriveConsumption) (b : option Q)
    : MotorDriveConsumption :=
  {| last_point := last_point self;
     last_bearing := b;
     is_continuous := is_continuous self;
     power_ema := power_ema self;
     consumption_window := consumption_window self;
     consumption_window_index := consumption_window_index self;
     consumption_window_total_distance := consumption_window_total_distance self;
     consumption_window_total_energy := consumption_window_total_energy self |}.

Definition set_power_ema (self : MotorDriveConsumption) (p : option Q)
    : MotorDriveConsumption :=
  {| last_point := last_point self;
     last_bearing := last_bearing self;
     is_continuous := is_continuous self;
     power_ema := p;
     consumption_window := consumption_window self;
     consumption_window_index := consumption_window_index self;
     consumption_window_total_distance := consumption_window_total_distance self;
     consumption_window_total_energy := consumption_window_total_energy self |}.

Definition set_last_point (self : MotorDriveConsumption) (p : option Point)
    : MotorDriveConsumption :=
  {| last_point := p;
     last_bearing := last_bearing self;
     is_continuous := is_continuous self;
     power_ema := power_ema self;
     consumption_window := consumption_window self;
     consumption_window_index := consumption_window_index self;
     consumption_window_total_distance := consumption_window_total_distance self;
     consumption_window_total_energy := consumption_window_total_energy self |}.

(** ** Geodesy *)

Definition _haversine_distance_in_meter `{MathLib} (point1 point2 : Point) : Q :=
  let R := 6371000 in
  let phi1 := radians (latitude point1) in
  let phi2 := radians (latitude point2) in
  let delta_phi := radians (latitude point2 - latitude point1) in
  let delta_lambda := radians (longitude point2 - longitude point1) in
  let a := sin (delta_phi / 2) ^ 2
           + cos phi1 * cos phi2 * sin (delta_lambda / 2) ^ 2 in
  let c := 2 * atan2 (sqrt a) (sqrt (1 - a)) in
  R * c.

Definition _bearing_between_points `{MathLib} (point1 point2 : Point) : Q :=
  let phi1 := radians (latitude point1) in
  let phi2 := radians (latitude point2) in
  let lambda1 := radians (longitude point1) in
  let lambda2 := radians (longitude point2) in
  let y := sin (lambda2 - lambda1) * cos phi2 in
  let x := cos phi1 * sin phi2 - sin phi1 * cos phi2 * cos (lambda2 - lambda1) in
  let bearing := atan2 y x in
  Qmod (degrees bearing + 360) 360.

(** ** [_calculate_energy_used] *)

Definition _calculate_energy_used `{MathLib} (self : MotorDriveConsumption)
    (power : Q) (dt : Z) : MotorDriveConsumption * Q :=
  let alpha := 1 - exp (inject_Z (- dt) / POWER_EMA_MS) in
  let ema := match power_ema self with
             | Some ema0 => ema0 + alpha * (power - ema0)
             | None => power
             end in
  (set_power_ema self (Some ema), ema * (inject_Z dt / 1000) / 3600).

(** ** [_calculate_distance_traveled] *)

(** The locals of the filter. *)
Definition distance_min (dt : Z) : Q := MINIMUM_SPEED_MS * (inject_Z dt / 1000).
Definition distance_max (dt : Z) : Q := MAXIMUM_SPEED_MS * (inject_Z dt / 1000).
Definition bearing_diff (bearing prev_bearing : Q) : Q :=
  Qabs (Qmod (bearing - prev_bearing + 540) 360 - 180).

Definition _calculate_distance_traveled `{MathLib} (self : MotorDriveConsumption)
    (point : Point) (dt : Z) : MotorDriveConsumption * option Q :=
  match last_point self with
  | None => (self, None)
  | Some prev =>
      let distance_raw := _haversine_distance_in_meter prev point in
      if Qltb distance_raw (distance_min dt) then
        (set_is_continuous self false, None)
      else
        let self1 :=
          set_is_continuous self (Qle_bool distance_raw (distance_max dt)) in
        let distance_clamped := py_min distance_raw (distance_max dt) in
        let bearing := _bearing_between_points prev point in
        match last_bearing self1 with
        | Some prev_bearing =>
            if is_continuous self1
               && Qle_bool BEARING_CHECK_MINIMUM_DISTANCE_M distance_clamped
               && Qle_bool BEARING_CHECK_THRESHOLD_DEGREES
                    (bearing_diff bearing prev_bearing)
            then (set_last_bearing (set_is_continuous self1 false) None, None)
            else (set_last_bearing self1 (Some bearing), Some distance_clamped)
        | None => (set_last_bearing self1 (Some bearing), Some distance_clamped)
        end
  end.

(** ** [_on_gps_update] *)

(** The reset taken when an input is missing. *)
Definition reset_filter (self : MotorDriveConsumption) : MotorDriveConsumption :=
  set_power_ema
    (set_last_bearing (set_last_point (set_is_continuous self false) None) None)
    None.

Definition outcome_bind {A B : Type} (o : outcome A) (k : A -> outcome B)
    : outcome B :=
  match o with
  | Returned a => k a
  | IndexError => IndexError
  | OutOfFuel => OutOfFuel
  end.

(** The elapsed time between the retained point and the new one. *)
Definition elapsed_ms (self : MotorDriveConsumption) (point : Point) : Z :=
  match last_point self with
  | Some prev => ((utc_time point - utc_time prev + 86400000) mod 86400000)%Z
  | None => 0%Z
  end.

(** The four reads ([/UtcTime], [/Position/Latitude], [/Position/Longitude]
    of the GPS service and [/MotorDrive/Power]) are the arguments; each may
    be [None]. *)
Definition _on_gps_update `{MathLib} (fuel : nat) (self : MotorDriveConsumption)
    (utc : option Z) (lat lon : option Q) (power : option Q)
    : outcome MotorDriveConsumption :=
  match power, utc, lat, lon with
  | Some power, Some utc, Some lat, Some lon =>
      let point := mkPoint utc lat lon in
      let dt := elapsed_ms self point in
      let '(self1, distance) := _calculate_distance_traveled self point dt in
      let '(self2, energy) := _calculate_energy_used self1 power dt in
      outcome_bind
        (match distance with
         | Some distance => _accumulate fuel self2 distance energy
         | None => Returned self2
         end)
        (fun self3 => Returned (set_last_point self3 (Some point)))
  | _, _, _, _ => Returned (reset_filter self)
  end.

(** ** [update_values] *)

(** [newvalues] is the dict the delegate writes its output into. *)
Definition update_values (self : MotorDriveConsumption)
    (newvalues : gmap string Q) : gmap string Q :=
  if Qltb 0 (consumption_window_total_distance self) then
    let consumption :=
      consumption_window_total_energy self
      / (consumption_window_total_distance self / 1000) in
    <[String.append PREFIX "/Consumption" := consumption]> newvalues
  else newvalues.

(** ** Invariants of the window *)

Definition sum_distance (cw : list Segment) : Q :=
  foldr (fun seg acc => seg_distance seg + acc) 0 cw.

Definition sum_energy (cw : list Segment) : Q :=
  foldr (fun seg acc => seg_energy seg + acc) 0 cw.

(** The running totals are the sums over the ring. *)
Definition totals_consistent (self : MotorDriveConsumption) : Prop :=
  consumption_window_total_distance self == sum_distance (consumption_window self)
  /\ consumption_window_total_energy self == sum_energy (consumption_window self).

(** Inside the loop the totals are ahead of the ring by what the locals
    [distance] and [energy] still hold. *)
Definition distance_ahead (self : MotorDriveConsumption) (distance : Q) : Prop :=
  consumption_window_total_distance self
  == sum_distance (consumption_window self) + distance.

Definition segment_in_range (seg : Segment) : Prop :=
  0 <= seg_distance seg /\ seg_distance seg <= WINDOW_SEGMENT_SIZE_M.

Definition segments_in_range (self : MotorDriveConsumption) : Prop :=
  Forall segment_in_range (consumption_window self).

(** The ring has its 50 slots and the write slot is not full. *)
Definition write_slot_open (self : MotorDriveConsumption) : Prop :=
  length (consumption_window self) = WINDOW_SEGMENT_COUNT
  /\ exists seg,
       consumption_window self !! consumption_window_index self = Some seg
       /\ seg_distance seg < WINDOW_SEGMENT_SIZE_M.

Definition window_ok (self : MotorDriveConsumption) : Prop :=
  write_slot_open self /\ segments_in_range self.

(** States of the window reached from [__init__] by calls of [_accumulate]
    with a distance that is not negative. *)
Inductive reachable : MotorDriveConsumption -> Prop :=
| reachable_init : reachable __init__
| reachable_accumulate (self self' : MotorDriveConsumption) (fuel : nat)
    (distance energy : Q) :
    reachable self ->
    0 <= distance ->
    _accumulate fuel self distance energy = Returned self' ->
    reachable self'.

(** The loop states an execution of the [while] passes through, from the
    state at loop entry. *)
Inductive iterates (entry : MotorDriveConsumption * Q * Q)
    : MotorDriveConsumption * Q * Q -> Prop :=
| iterates_entry : iterates entry entry
| iterates_pass (self self' : MotorDriveConsumption) (d e d' e' : Q) :
    iterates entry (self, d, e) ->
    0 < d ->
    accumulate_body self d e = Some (self', d', e') ->
    iterates entry (self', d', e').

(** The state [_accumulate] enters its loop with. *)
Definition loop_entry (self : MotorDriveConsumption) (distance energy : Q)
    : MotorDriveConsumption * Q * Q :=
  (with_window self (consumption_window self) (consumption_window_index self)
     (consumption_window_total_distance self + distance)
     (consumption_window_total_energy self + energy),
   distance, energy).

(** The two ways through the loop body. *)

(** The movement fits: the write slot takes it all, nothing else changes. *)
Definition pass_consumes (self : MotorDriveConsumption) (d e : Q)
    (self' : MotorDriveConsumption) (d' e' : Q) : Prop :=
  d' == 0 /\ e' == 0
  /\ consumption_window_index self' = consumption_window_index self
  /\ exists seg,
       consumption_window self !! consumption_window_index self = Some seg
       /\ consumption_window self'
          = <[consumption_window_index self :=
                mkSegment (seg_distance seg + d) (seg_energy seg + e)]>
              (consumption_window self).

(** The movement does not fit: the write slot is filled to capacity, the
    write index advances, the slot it reaches is taken off the totals and
    zeroed, every other slot is as before, and less distance is left. *)
Definition pass_fills_and_evicts (self : MotorDriveConsumption) (d e : Q)
    (self' : MotorDriveConsumption) (d' e' : Q) : Prop :=
  let i := consumption_window_index self in
  let j := consumption_window_index self' in
  j = ((i + 1) mod WINDOW_SEGMENT_COUNT)%nat
  /\ i <> j
  /\ (exists filled, consumption_window self' !! i = Some filled
        /\ seg_distance filled == WINDOW_SEGMENT_SIZE_M)
  /\ consumption_window self' !! j = Some (mkSegment 0 0)
  /\ (forall k, k <> i -> k <> j ->
        consumption_window self' !! k = consumption_window self !! k)
  /\ (exists evicted, consumption_window self !! j = Some evicted
        /\ consumption_window_total_distance self'
           = consumption_window_total_distance self - seg_distance evicted
        /\ consumption_window_total_energy self'
           = consumption_window_total_energy self - seg_energy evicted)
  /\ 0 <= d' /\ d' < d.

(** The slot written when the movement fills the write slot. *)
Definition filled_segment (seg : Segment) (d e : Q) : Segment :=
  let segment_remaining_distance := WINDOW_SEGMENT_SIZE_M - seg_distance seg in
  mkSegment (seg_distance seg + segment_remaining_distance)
            (seg_energy seg + e * (segment_remaining_distance / d)).

(** The distance already in the write slot. *)
Definition write_slot_distance (self : MotorDriveConsumption) : Q :=
  match consumption_window self !! consumption_window_index self with
  | Some seg => seg_distance seg
  | None => 0
  end.

(** ** The bearing test of the filter *)

(** The condition under which [_calculate_distance_traveled] rejects a
    sample for its change of bearing, on the locals [distance_raw] and
    [bearing] of a sample that passed the minimum-speed test. *)
Definition bearing_discontinuity (self : MotorDriveConsumption)
    (distance_raw bearing : Q) (dt : Z) : bool :=
  match last_bearing self with
  | Some prev_bearing =>
      Qle_bool distance_raw (distance_max dt)
      && Qle_bool BEARING_CHECK_MINIMUM_DISTANCE_M
           (py_min distance_raw (distance_max dt))
      && Qle_bool BEARING_CHECK_THRESHOLD_DEGREES
           (bearing_diff bearing prev_bearing)
  | None => false
  end.

(** ** A rational [math] module

    An implementation of [MathLib] by short series and a fixed-point square
    root, exact at the origin, to run the delegate on concrete fixes. *)

Module RationalMath.
Definition pi : Q := 355 # 113.

Definition radians (x : Q) : Q := Qred (x * pi / 180).
Definition degrees (x : Q) : Q := Qred (x * 180 / pi).

Definition sin (x : Q) : Q :=
  Qred (x - x * x * x / 6 + x * x * x * x * x / 120).

Definition cos (x : Q) : Q :=
  Qred (1 - x * x / 2 + x * x * x * x / 24).

(** Twelve decimals of the square root. *)
Definition sqrt (x : Q) : Q :=
  Qred (Z.sqrt (Qfloor (x * 1000000000000000000000000)) # 1000000000000).

Definition atan (t : Q) : Q :=
  t - t * t * t / 3 + t * t * t * t * t / 5.

Definition half_turn_of (y : Q) : Q := if Qltb y 0 then - pi else pi.

Definition atan2 (y x : Q) : Q :=
  Qred
    (if Qltb 0 x then
       if Qle_bool (Qabs y) x then atan (y / x)
       else half_turn_of y / 2 - atan (x / y)
     else if Qltb x 0 then
       if Qle_bool (Qabs y) (- x) then atan (y / x) + half_turn_of y
       else half_turn_of y / 2 - atan (x / y)
     else if Qltb 0 y then pi / 2
     else if Qltb y 0 then - pi / 2
     else 0).

Definition exp (x : Q) : Q :=
  Qred (1 + x + x * x / 2 + x * x * x / 6).
End RationalMath.

#[export] Instance rational_math : MathLib := {
  radians := RationalMath.radians;
  degrees := RationalMath.degrees;
  sin := RationalMath.sin;
  cos := RationalMath.cos;
  sqrt := RationalMath.sqrt;
  atan2 := RationalMath.atan2;
  exp := RationalMath.exp
}.

(** ** Concrete fixes and states used in the examples *)

(** A fix at the origin at midnight, and fixes east and north of it. *)
Definition origin : Point := mkPoint 0 0 0.
Definition east_111m_60s : Point := mkPoint 60000 0 (1 # 1000).
Definition east_2224m_60s : Point := mkPoint 60000 0 (2 # 100).
Definition north_11cm_1s : Point := mkPoint 1000 (1 # 1000000) 0.

(** The instance after a first fix at [origin], heading [bearing]. *)
Definition at_origin_heading (bearing : option Q) : MotorDriveConsumption :=
  set_last_bearing (set_last_point __init__ (Some origin)) bearing.

(** The instance with a smoothed power of 100 W. *)
Definition smoothed_100w : MotorDriveConsumption :=
  set_power_ema __init__ (Some 100).

(** The window after a first movement of 100 m that took 10 Wh. *)
Definition after_100m : MotorDriveConsumption :=
  match _accumulate 5 __init__ 100 10 with
  | Returned self => self
  | _ => __init__
  end.

(** ** [get_output] *)

(** The paths the delegate publishes, each with its formatting options. *)
Definition get_output : list (string * list (string * string)) :=
  [(String.append PREFIX "/Consumption", [("gettext"%string, "%dWh/km"%string)])].

(** ** Frames *)

(** The attributes of the instance that are not the window. *)
Definition same_filter_state (self self' : MotorDriveConsumption) : Prop :=
  last_point self' = last_point self
  /\ last_bearing self' = last_bearing self
  /\ is_continuous self' = is_continuous self
  /\ power_ema self' = power_ema self.

(** The window attributes of the instance. *)
Definition same_window (self self' : MotorDriveConsumption) : Prop :=
  consumption_window self' = consumption_window self
  /\ consumption_window_index self' = consumption_window_index self
  /\ consumption_window_total_distance self'
     = consumption_window_total_distance self
  /\ consumption_window_total_energy self'
     = consumption_window_total_energy self.

(** More states used in the examples. *)

(** An instance whose write index points outside the ring. *)
Definition index_out_of_ring : MotorDriveConsumption :=
  with_window __init__ (consumption_window __init__) 50 0 0.

(** ** The shape of the ring *)

(** The ring has its 50 slots and the write index is one of them. *)
Definition ring_shape (self : MotorDriveConsumption) : Prop :=
  length (consumption_window self) = WINDOW_SEGMENT_COUNT
  /\ (consumption_window_index self < WINDOW_SEGMENT_COUNT)%nat.

(** ** What a call takes off the totals *)



(** The pass that does not fit, with what is left stated as the source
    computes it: the write slot is filled to capacity, the write index
    advances, the slot it reaches is taken off the totals and zeroed, every
    other slot is as before, and the distance left is not negative and not
    more than before. *)
Definition pass_fills_evicts_and_continues (self : MotorDriveConsumption)
    (d e : Q) (self' : MotorDriveConsumption) (d' e' : Q) : Prop :=
  let i := consumption_window_index self in
  let j := consumption_window_index self' in
  j = ((i + 1) mod WINDOW_SEGMENT_COUNT)%nat
  /\ i <> j
  /\ (exists filled, consumption_window self' !! i = Some filled
        /\ seg_distance filled == WINDOW_SEGMENT_SIZE_M)
  /\ consumption_window self' !! j = Some (mkSegment 0 0)
  /\ (forall k, k <> i -> k <> j ->
        consumption_window self' !! k = consumption_window self !! k)
  /\ (exists evicted, consumption_window self !! j = Some evicted
        /\ consumption_window_total_distance self'
           = consumption_window_total_distance self - seg_distance evicted
        /\ consumption_window_total_energy self'
           = consumption_window_total_energy self - seg_energy evicted)
  /\ 0 <= d' /\ d' <= d.

(** ** [_accumulate] in binary64

    The same lines of the source with the arithmetic of Python's [float]:
    IEEE 754 binary64, round to nearest even.  The integers [0] and [37] of
    the source are the floats [0.0] and [37.0] they are converted to in mixed
    operations.  Only the window is kept; [_accumulate] reads and writes no
    other attribute. *)

Module Binary64.
Local Open Scope float_scope.

Definition WINDOW_SEGMENT_SIZE_M : float := 37.

Record Segment := mkSegment { seg_distance : float; seg_energy : float }.

Record Window := mkWindow {
  consumption_window : list Segment;
  consumption_window_index : nat;
  consumption_window_total_distance : float;
  consumption_window_total_energy : float
}.

Definition __init__ : Window :=
  mkWindow (replicate WINDOW_SEGMENT_COUNT (mkSegment 0 0)) 0 0 0.

Definition accumulate_body (self : Window) (distance energy : float)
    : option (Window * float * float) :=
  let cw := consumption_window self in
  let i := consumption_window_index self in
  seg ← cw !! i;
  let segment_remaining_distance := WINDOW_SEGMENT_SIZE_M - seg_distance seg in
  if distance <? segment_remaining_distance then
    (* Fits in current segment *)
    let cw1 := <[i := mkSegment (seg_distance seg + distance)
                                (seg_energy seg + energy)]> cw in
    Some (mkWindow cw1 i (consumption_window_total_distance self)
            (consumption_window_total_energy self), 0, 0)
  else
    (* Fill up current segment and move to next *)
    let ratio := segment_remaining_distance / distance in
    let cw1 := <[i := mkSegment (seg_distance seg + segment_remaining_distance)
                                (seg_energy seg + energy * ratio)]> cw in
    let distance' := distance - segment_remaining_distance in
    let energy' := energy - energy * ratio in
    let j := ((i + 1) mod WINDOW_SEGMENT_COUNT)%nat in
    (* Subtract the segment that is being overwritten *)
    old ← cw1 !! j;
    let td := consumption_window_total_distance self - seg_distance old in
    let te := consumption_window_total_energy self - seg_energy old in
    (* Reset the segment *)
    let cw2 := <[j := mkSegment 0 0]> cw1 in
    Some (mkWindow cw2 j td te, distance', energy').

Fixpoint accumulate_loop (fuel : nat) (self : Window) (distance energy : float)
    : outcome Window :=
  if 0 <? distance then
    match fuel with
    | O => OutOfFuel
    | S fuel' =>
        match accumulate_body self distance energy with
        | None => IndexError
        | Some (self', distance', energy') =>
            accumulate_loop fuel' self' distance' energy'
        end
    end
  else Returned self.

Definition _accumulate (fuel : nat) (self : Window) (distance energy : float)
    : outcome Window :=
  accumulate_loop fuel
    (mkWindow (consumption_window self) (consumption_window_index self)
       (consumption_window_total_distance self + distance)
       (consumption_window_total_energy self + energy))
    distance energy.

(** Python's [sum(segment[0] for segment in window)], from the left. *)
Definition sum_distance (cw : list Segment) : float :=
  fold_left (fun acc seg => acc + seg_distance seg) cw 0.

Definition sum_energy (cw : list Segment) : float :=
  fold_left (fun acc seg => acc + seg_energy seg) cw 0.

(** [total_distance == sum of distances and total_energy == sum of energies]. *)
Definition totals_consistent (self : Window) : bool :=
  (consumption_window_total_distance self
   =? sum_distance (consumption_window self))
  && (consumption_window_total_energy self
      =? sum_energy (consumption_window self)).

(** The calls [_accumulate(distance, energy)] of a list, one after the other,
    on a fresh instance (each with fuel for 60 passes). *)
Definition after_calls (calls : list (float * float)) : outcome Window :=
  fold_left
    (fun o call =>
       match o with
       | Returned self => _accumulate 60 self call.1 call.2
       | IndexError => IndexError
       | OutOfFuel => OutOfFuel
       end)
    calls (Returned __init__).

End Binary64.


(** * Proofs *)

(** ** Facts about numbers *)

Lemma Qltb_lt (a b : Q) : Qltb a b = true <-> a < b.
Proof.
  unfold Qltb. rewrite negb_true_iff. split.
  - intros Hf. apply Qnot_le_lt. intros Hle.
    apply Qle_bool_iff in Hle. congruence.
  - intros Hlt. destruct (Qle_bool b a) eqn:Hb; [|reflexivity].
    apply Qle_bool_iff in Hb. lra.
Qed.

Lemma Qltb_ge (a b : Q) : Qltb a b = false <-> b <= a.
Proof.
  unfold Qltb. rewrite negb_false_iff. apply Qle_bool_iff.
Qed.

Lemma py_min_le_r (a b : Q) : py_min a b <= b.
Proof.
  unfold py_min. destruct (Qltb b a) eqn:Hc.
  - lra.
  - apply Qltb_ge in Hc. exact Hc.
Qed.

(** Every rational is below some multiple of the segment size. *)
Lemma segment_multiple_above (q : Q) :
  exists n : nat, q < WINDOW_SEGMENT_SIZE_M * inject_Z (Z.of_nat n).
Proof.
  exists (Z.to_nat (Qfloor q + 1)).
  unfold WINDOW_SEGMENT_SIZE_M.
  pose proof (Qlt_floor q) as Hfl.
  destruct (Z_lt_le_dec (Qfloor q + 1) 0) as [Hneg | Hpos].
  - rewrite Z2Nat.nonpos by lia.
    assert (inject_Z (Qfloor q + 1) <= inject_Z 0) as Hz
      by (rewrite <- Zle_Qle; lia).
    change (inject_Z 0) with 0 in Hz.
    change (inject_Z (Z.of_nat 0)) with 0. lra.
  - rewrite Z2Nat.id by lia.
    assert (inject_Z 0 <= inject_Z (Qfloor q + 1)) as Hz
      by (rewrite <- Zle_Qle; lia).
    change (inject_Z 0) with 0 in Hz. lra.
Qed.

(** ** Sums over the ring under an update *)

Lemma sum_distance_insert (cw : list Segment) (i : nat) (old new : Segment) :
  cw !! i = Some old ->
  sum_distance (<[i := new]> cw)
  == sum_distance cw - seg_distance old + seg_distance new.
Proof.
  revert i. induction cw as [|s cw IH]; intros [|i] Hi; simpl in *;
    try discriminate.
  - injection Hi as ->. lra.
  - specialize (IH i Hi). lra.
Qed.

Lemma sum_distance_bound (cw : list Segment) :
  Forall segment_in_range cw ->
  0 <= sum_distance cw
  /\ sum_distance cw <= WINDOW_SEGMENT_SIZE_M * inject_Z (Z.of_nat (length cw)).
Proof.
  unfold WINDOW_SEGMENT_SIZE_M, segment_in_range.
  induction 1 as [|s cw [Hlo Hhi] _ IH].
  - change (0 <= 0 /\ 0 <= 37 * 0). lra.
  - change (sum_distance (s :: cw)) with (seg_distance s + sum_distance cw).
    change (length (s :: cw)) with (S (length cw)).
    rewrite Nat2Z.inj_succ. unfold Z.succ. rewrite inject_Z_plus.
    change (inject_Z 1) with 1. unfold WINDOW_SEGMENT_SIZE_M in *. lra.
Qed.

(** ** The loop body, case by case *)

Lemma accumulate_body_cases (self self' : MotorDriveConsumption) (d e d' e' : Q) :
  accumulate_body self d e = Some (self', d', e') ->
  let cw := consumption_window self in
  let i := consumption_window_index self in
  let j := ((i + 1) mod WINDOW_SEGMENT_COUNT)%nat in
  exists seg, cw !! i = Some seg /\
    ((d < WINDOW_SEGMENT_SIZE_M - seg_distance seg
      /\ self' = with_window self
                   (<[i := mkSegment (seg_distance seg + d) (seg_energy seg + e)]> cw)
                   i (consumption_window_total_distance self)
                   (consumption_window_total_energy self)
      /\ d' = 0 /\ e' = 0)
     \/
     (WINDOW_SEGMENT_SIZE_M - seg_distance seg <= d
      /\ exists old, <[i := filled_segment seg d e]> cw !! j = Some old
      /\ self' = with_window self
                   (<[j := mkSegment 0 0]> (<[i := filled_segment seg d e]> cw))
                   j (consumption_window_total_distance self - seg_distance old)
                   (consumption_window_total_energy self - seg_energy old)
      /\ d' = d - (WINDOW_SEGMENT_SIZE_M - seg_distance seg)
      /\ e' = e - e * ((WINDOW_SEGMENT_SIZE_M - seg_distance seg) / d))).
Proof.
  unfold accumulate_body. intros Hb; cbv zeta.
  destruct (consumption_window self !! consumption_window_index self)
    as [seg|] eqn:Hseg;
    cbv beta iota zeta delta [mbind option_bind] in Hb; [|discriminate].
  exists seg. split; [reflexivity|].
  destruct (Qltb d (WINDOW_SEGMENT_SIZE_M - seg_distance seg)) eqn:Hfit.
  - left. apply Qltb_lt in Hfit. injection Hb as <- <- <-. auto.
  - right. apply Qltb_ge in Hfit. split; [exact Hfit|].
    fold (filled_segment seg d e) in Hb.
    destruct (<[consumption_window_index self := filled_segment seg d e]>
                (consumption_window self)
              !! ((consumption_window_index self + 1) mod WINDOW_SEGMENT_COUNT)%nat)
      as [old|] eqn:Hold; [|discriminate].
    exists old. injection Hb as <- <- <-. auto.
Qed.

(** The successor of a ring index is another index of the ring. *)
Lemma next_index (i : nat) :
  (i < WINDOW_SEGMENT_COUNT)%nat ->
  let j := ((i + 1) mod WINDOW_SEGMENT_COUNT)%nat in
  (j < WINDOW_SEGMENT_COUNT)%nat /\ i <> j.
Proof.
  unfold WINDOW_SEGMENT_COUNT. intros Hi. cbv zeta.
  destruct (decide (i = 49%nat)) as [-> | Hne].
  - split; [apply Nat.mod_upper_bound; lia | discriminate].
  - rewrite Nat.mod_small by lia. lia.
Qed.

(** The body cannot fail on a ring with its 50 slots and a valid index. *)
Lemma accumulate_body_defined (self : MotorDriveConsumption) (d e : Q) :
  write_slot_open self ->
  exists self' d' e', accumulate_body self d e = Some (self', d', e').
Proof.
  intros [Hlen (seg & Hseg & _)]. unfold accumulate_body.
  rewrite Hseg. cbv beta iota zeta delta [mbind option_bind].
  destruct (Qltb d (WINDOW_SEGMENT_SIZE_M - seg_distance seg)); [eauto|].
  pose proof (lookup_lt_Some _ _ _ Hseg) as Hi. rewrite Hlen in Hi.
  destruct (next_index _ Hi) as [Hj _].
  match goal with |- context [?l !! ?k] =>
    destruct (lookup_lt_is_Some_2 l k) as [old Hold] end.
  { rewrite length_insert, Hlen. exact Hj. }
  rewrite Hold. eauto.
Qed.

(** ** The [while] rule for [accumulate_loop] *)

Section WhileRule.
Variable I : MotorDriveConsumption -> Q -> Q -> Prop.
Hypothesis I_body :
  forall self d e self' d' e',
    I self d e -> 0 < d ->
    accumulate_body self d e = Some (self', d', e') ->
    I self' d' e'.

Lemma accumulate_loop_rule (fuel : nat) :
  forall self d e self',
    I self d e ->
    accumulate_loop fuel self d e = Returned self' ->
    exists d' e', I self' d' e' /\ d' <= 0.
Proof using I_body.
  induction fuel as [|fuel IH]; intros self d e self' HI Hrun; simpl in Hrun;
    destruct (Qltb 0 d) eqn:Hd; try discriminate.
  - injection Hrun as <-. apply Qltb_ge in Hd. eauto.
  - destruct (accumulate_body self d e) as [[[self1 d1] e1]|] eqn:Hb;
      [|discriminate].
    apply Qltb_lt in Hd. eauto.
  - injection Hrun as <-. apply Qltb_ge in Hd. eauto.
Qed.
End WhileRule.

(** Reading a field of an updated instance. *)
Ltac fields :=
  cbn [seg_distance seg_energy filled_segment
       consumption_window consumption_window_index
       consumption_window_total_distance consumption_window_total_energy
       last_point last_bearing is_continuous power_ema
       with_window set_is_continuous set_last_bearing set_power_ema
       set_last_point] in *.

(** Linear arithmetic once the fields and the segment size are read. *)
Ltac qfields := fields; unfold WINDOW_SEGMENT_SIZE_M in *; lra.

(** ** What one pass preserves *)

Lemma accumulate_body_window_ok (self self' : MotorDriveConsumption)
    (d e d' e' : Q) :
  window_ok self /\ 0 <= d -> 0 < d ->
  accumulate_body self d e = Some (self', d', e') ->
  window_ok self' /\ 0 <= d'.
Proof.
  intros [[[Hlen (seg0 & Hseg0 & Hopen)] Hrange] _] Hd Hb.
  destruct (accumulate_body_cases _ _ _ _ _ _ Hb) as (seg & Hseg & Hcase).
  rewrite Hseg0 in Hseg. injection Hseg as <-.
  pose proof (lookup_lt_Some _ _ _ Hseg0) as Hi.
  pose proof (Forall_lookup_1 _ _ _ _ Hrange Hseg0) as [Hlo Hhi].
  destruct Hcase as [(Hfit & -> & -> & ->) | (Hfill & old & Hold & -> & -> & ->)].
  - split; [|lra]. split; [split|]; fields.
    + rewrite length_insert. exact Hlen.
    + eexists. split; [apply list_lookup_insert_eq; exact Hi|]. qfields.
    + apply Forall_insert; [exact Hrange|]. split; qfields.
  - rewrite Hlen in Hi. destruct (next_index _ Hi) as [Hj Hij].
    split; [|qfields]. split; [split|]; fields.
    + rewrite !length_insert. exact Hlen.
    + eexists. split.
      * apply list_lookup_insert_eq. rewrite length_insert, Hlen. exact Hj.
      * qfields.
    + apply Forall_insert; [apply Forall_insert; [exact Hrange|]|];
        split; qfields.
Qed.

Lemma accumulate_body_distance_ahead (self self' : MotorDriveConsumption)
    (d e d' e' : Q) :
  distance_ahead self d /\ 0 <= d -> 0 < d ->
  accumulate_body self d e = Some (self', d', e') ->
  distance_ahead self' d' /\ 0 <= d'.
Proof.
  unfold distance_ahead. intros [Hahead _] Hd Hb.
  destruct (accumulate_body_cases _ _ _ _ _ _ Hb) as (seg & Hseg & Hcase).
  destruct Hcase as [(Hfit & -> & -> & ->) | (Hfill & old & Hold & -> & -> & ->)];
    fields.
  - pose proof (sum_distance_insert _ _ _
      (mkSegment (seg_distance seg + d) (seg_energy seg + e)) Hseg) as H1.
    fields. lra.
  - pose proof (sum_distance_insert _ _ _ (filled_segment seg d e) Hseg) as H1.
    pose proof (sum_distance_insert _ _ _ (mkSegment 0 0) Hold) as H2.
    fields. lra.
Qed.

(** ** Termination of the loop *)

Lemma accumulate_loop_done (fuel : nat) (self : MotorDriveConsumption) (d e : Q) :
  d <= 0 -> accumulate_loop fuel self d e = Returned self.
Proof.
  intros Hd. apply Qltb_ge in Hd. destruct fuel; simpl; rewrite Hd; reflexivity.
Qed.

(** Each pass that does not finish takes a whole segment size off
    [distance + write_slot_distance]; so many passes of fuel suffice. *)
Lemma accumulate_loop_returns (fuel : nat) :
  forall (self : MotorDriveConsumption) (d e : Q),
    window_ok self -> 0 <= d ->
    d + write_slot_distance self
      < WINDOW_SEGMENT_SIZE_M * inject_Z (Z.of_nat fuel) ->
    exists self', accumulate_loop fuel self d e = Returned self'.
Proof.
  induction fuel as [|fuel IH]; intros self d e Hok Hd Hfuel.
  - assert (0 <= write_slot_distance self) as Hw.
    { destruct Hok as [[_ (seg & Hseg & _)] Hrange].
      unfold write_slot_distance. rewrite Hseg.
      apply (Forall_lookup_1 _ _ _ _ Hrange Hseg). }
    change (inject_Z (Z.of_nat 0)) with 0 in Hfuel.
    unfold WINDOW_SEGMENT_SIZE_M in Hfuel.
    exists self. apply accumulate_loop_done. lra.
  - simpl. destruct (Qltb 0 d) eqn:Hpos; [|eauto].
    apply Qltb_lt in Hpos.
    destruct (accumulate_body_defined self d e (proj1 Hok))
      as (self1 & d1 & e1 & Hb).
    rewrite Hb.
    destruct (accumulate_body_window_ok _ _ _ _ _ _ (conj Hok Hd) Hpos Hb)
      as [Hok1 Hd1].
    destruct (accumulate_body_cases _ _ _ _ _ _ Hb) as (seg & Hseg & Hcase).
    destruct Hcase as [(Hfit & -> & -> & ->) | (Hfill & old & Hold & -> & -> & ->)].
    + eexists. apply accumulate_loop_done. lra.
    + apply IH; [exact Hok1 | exact Hd1 |].
      destruct Hok as [[Hlen _] _].
      pose proof (lookup_lt_Some _ _ _ Hseg) as Hi. rewrite Hlen in Hi.
      destruct (next_index _ Hi) as [Hj _].
      unfold write_slot_distance in *. rewrite Hseg in Hfuel. fields.
      rewrite list_lookup_insert_eq
        by (rewrite length_insert, Hlen; exact Hj).
      rewrite Nat2Z.inj_succ in Hfuel. unfold Z.succ in Hfuel.
      rewrite inject_Z_plus in Hfuel. change (inject_Z 1) with 1 in Hfuel.
      qfields.
Qed.

(** ** What a call of [_accumulate] establishes *)

Lemma entry_window_ok (self : MotorDriveConsumption) (td te : Q) :
  window_ok self ->
  window_ok (with_window self (consumption_window self)
               (consumption_window_index self) td te).
Proof. intros Hok. exact Hok. Qed.

Lemma accumulate_returns (self : MotorDriveConsumption) (d e : Q) :
  window_ok self -> 0 <= d ->
  exists fuel self', _accumulate fuel self d e = Returned self'.
Proof.
  intros Hok Hd.
  destruct (segment_multiple_above (d + write_slot_distance self)) as [fuel Hf].
  exists fuel. unfold _accumulate.
  apply accumulate_loop_returns; [apply entry_window_ok; exact Hok | exact Hd |].
  exact Hf.
Qed.

Lemma accumulate_window_ok (fuel : nat) (self self' : MotorDriveConsumption)
    (d e : Q) :
  window_ok self -> 0 <= d ->
  _accumulate fuel self d e = Returned self' ->
  window_ok self'.
Proof.
  intros Hok Hd Hrun. unfold _accumulate in Hrun.
  destruct (accumulate_loop_rule (fun s d _ => window_ok s /\ 0 <= d)
              (fun s d e s' d' e' => accumulate_body_window_ok s s' d e d' e')
              fuel _ _ _ _ (conj (entry_window_ok self _ _ Hok) Hd) Hrun)
    as (d' & e' & [Hok' _] & _).
  exact Hok'.
Qed.

Lemma accumulate_distance_total (fuel : nat) (self self' : MotorDriveConsumption)
    (d e : Q) :
  consumption_window_total_distance self
    == sum_distance (consumption_window self) ->
  0 <= d ->
  _accumulate fuel self d e = Returned self' ->
  consumption_window_total_distance self'
    == sum_distance (consumption_window self').
Proof.
  intros Htot Hd Hrun. unfold _accumulate in Hrun.
  match type of Hrun with accumulate_loop _ ?s _ _ = _ =>
    assert (distance_ahead s d /\ 0 <= d) as Hentry
      by (unfold distance_ahead; fields; split; lra)
  end.
  destruct (accumulate_loop_rule (fun s d _ => distance_ahead s d /\ 0 <= d)
              (fun s d e s' d' e' => accumulate_body_distance_ahead s s' d e d' e')
              fuel _ _ _ _ Hentry Hrun)
    as (d' & e' & [Hahead Hd'] & Hexit).
  unfold distance_ahead in Hahead. lra.
Qed.

(** ** The initial window and the reachable ones *)

Lemma init_window_ok : window_ok __init__.
Proof.
  split; [split|].
  - apply length_replicate.
  - exists (mkSegment 0 0). split; [reflexivity|]. reflexivity.
  - apply Forall_replicate. split; simpl; [apply Qle_refl | discriminate].
Qed.

Lemma reachable_window_ok (self : MotorDriveConsumption) :
  reachable self ->
  window_ok self
  /\ consumption_window_total_distance self
     == sum_distance (consumption_window self).
Proof.
  induction 1 as [|self self' fuel d e _ [IHok IHtot] Hd Hrun].
  - split; [exact init_window_ok | reflexivity].
  - split.
    + exact (accumulate_window_ok _ _ _ _ _ IHok Hd Hrun).
    + exact (accumulate_distance_total _ _ _ _ _ IHtot Hd Hrun).
Qed.

(** ** The passes of the loop *)

Lemma iterates_window_ok (entry cur : MotorDriveConsumption * Q * Q) :
  window_ok entry.1.1 /\ 0 <= entry.1.2 ->
  iterates entry cur ->
  window_ok cur.1.1 /\ 0 <= cur.1.2.
Proof.
  intros Hentry Hit. induction Hit as [|self self' d e d' e' _ IH Hd Hb].
  - exact Hentry.
  - exact (accumulate_body_window_ok _ _ _ _ _ _ IH Hd Hb).
Qed.

Lemma accumulate_body_pass (self self' : MotorDriveConsumption) (d e d' e' : Q) :
  window_ok self -> 0 < d ->
  accumulate_body self d e = Some (self', d', e') ->
  pass_consumes self d e self' d' e'
  \/ pass_fills_and_evicts self d e self' d' e'.
Proof.
  intros [[Hlen (seg0 & Hseg0 & Hopen)] Hrange] Hd Hb.
  destruct (accumulate_body_cases _ _ _ _ _ _ Hb) as (seg & Hseg & Hcase).
  rewrite Hseg0 in Hseg. injection Hseg as <-.
  pose proof (lookup_lt_Some _ _ _ Hseg0) as Hi.
  destruct Hcase as [(Hfit & -> & -> & ->) | (Hfill & old & Hold & -> & -> & ->)].
  - left. unfold pass_consumes. fields.
    repeat split; try reflexivity. exists seg0. split; [exact Hseg0 | reflexivity].
  - right. rewrite Hlen in Hi. destruct (next_index _ Hi) as [Hj Hij].
    unfold pass_fills_and_evicts. cbv zeta.
    cbn [consumption_window consumption_window_index
         consumption_window_total_distance consumption_window_total_energy
         with_window].
    split; [reflexivity|]. split; [exact Hij|]. split; [|split; [|split; [|split]]].
    + exists (filled_segment seg0 d e). split.
      * rewrite list_lookup_insert_ne by (intros Heq; apply Hij; symmetry; exact Heq).
        apply list_lookup_insert_eq. rewrite Hlen. exact Hi.
      * qfields.
    + apply list_lookup_insert_eq. rewrite length_insert, Hlen. exact Hj.
    + intros k Hki Hkj.
      rewrite list_lookup_insert_ne by (intros Heq; apply Hkj; symmetry; exact Heq).
      apply list_lookup_insert_ne. intros Heq; apply Hki; symmetry; exact Heq.
    + exists old. rewrite list_lookup_insert_ne in Hold by exact Hij.
      split; [exact Hold|]. split; reflexivity.
    + qfields.
Qed.

(** ** The shape of the ring under [_accumulate] *)

Lemma py_min_cases (a b : Q) : py_min a b = a \/ py_min a b = b.
Proof. unfold py_min. destruct (Qltb b a); auto. Qed.

(** On a ring of 50 slots with a valid write index the body finds the slots
    it reads, whatever the numbers, and leaves such a ring. *)
Lemma accumulate_body_ring_shape (self : MotorDriveConsumption) (d e : Q) :
  ring_shape self ->
  exists self' d' e',
    accumulate_body self d e = Some (self', d', e') /\ ring_shape self'.
Proof.
  intros [Hlen Hi]. unfold ring_shape.
  destruct (lookup_lt_is_Some_2 (consumption_window self)
              (consumption_window_index self)) as [seg Hseg].
  { rewrite Hlen. exact Hi. }
  unfold accumulate_body. rewrite Hseg.
  cbv beta iota zeta delta [mbind option_bind].
  destruct (Qltb d (WINDOW_SEGMENT_SIZE_M - seg_distance seg)).
  - eexists _, _, _. split; [reflexivity|].
    cbn [consumption_window consumption_window_index with_window].
    rewrite length_insert. split; [exact Hlen | exact Hi].
  - destruct (next_index _ Hi) as [Hj _].
    match goal with |- context [?l !! ?k] =>
      destruct (lookup_lt_is_Some_2 l k) as [old Hold] end.
    { rewrite length_insert, Hlen. exact Hj. }
    rewrite Hold. eexists _, _, _. split; [reflexivity|].
    cbn [consumption_window consumption_window_index with_window].
    rewrite !length_insert. split; [exact Hlen | exact Hj].
Qed.

Lemma accumulate_loop_ring_shape (fuel : nat) :
  forall (self : MotorDriveConsumption) (d e : Q),
    ring_shape self ->
    accumulate_loop fuel self d e <> IndexError
    /\ (forall self', accumulate_loop fuel self d e = Returned self' ->
                      ring_shape self').
Proof.
  induction fuel as [|fuel IH]; intros self d e Hshape; simpl;
    destruct (Qltb 0 d).
  - split; [discriminate | intros self'; discriminate].
  - split; [discriminate | intros self' [= <-]; exact Hshape].
  - destruct (accumulate_body_ring_shape self d e Hshape)
      as (self1 & d1 & e1 & Hb & Hshape1).
    rewrite Hb. exact (IH self1 d1 e1 Hshape1).
  - split; [discriminate | intros self' [= <-]; exact Hshape].
Qed.

Lemma window_ok_ring_shape (self : MotorDriveConsumption) :
  window_ok self -> ring_shape self.
Proof.
  intros [[Hlen (seg & Hseg & _)] _]. split; [exact Hlen|].
  rewrite <- Hlen. exact (lookup_lt_Some _ _ _ Hseg).
Qed.

(** ** The totals, eviction by eviction *)




(** ** Runs in binary64 *)

(** With the write slot empty, taking a segment off a distance of [1e18]
    leaves [1e18]: the loop passes from slot to slot and never returns. *)
Lemma binary64_loop_absorbs (fuel : nat) :
  forall (self : Binary64.Window) (e : float),
    length (Binary64.consumption_window self) = WINDOW_SEGMENT_COUNT ->
    (Binary64.consumption_window_index self < WINDOW_SEGMENT_COUNT)%nat ->
    (exists se, Binary64.consumption_window self
                  !! Binary64.consumption_window_index self
                = Some (Binary64.mkSegment 0%float se)) ->
    Binary64.accumulate_loop fuel self 1e18%float e = OutOfFuel.
Proof.
  induction fuel as [|fuel IH]; intros self e Hlen Hi [se Hseg];
    [reflexivity|].
  cbn [Binary64.accumulate_loop].
  change (PrimFloat.ltb 0%float 1e18%float) with true. cbv iota.
  unfold Binary64.accumulate_body. rewrite Hseg.
  cbv beta iota zeta delta [mbind option_bind Binary64.seg_distance
                            Binary64.seg_energy].
  change (PrimFloat.ltb 1e18%float
            (PrimFloat.sub Binary64.WINDOW_SEGMENT_SIZE_M 0%float)) with false.
  cbv iota.
  destruct (next_index _ Hi) as [Hj _].
  match goal with |- context [?l !! ?k] =>
    destruct (lookup_lt_is_Some_2 l k) as [old Hold] end.
  { rewrite length_insert, Hlen. exact Hj. }
  rewrite Hold.
  change (PrimFloat.sub 1e18%float
            (PrimFloat.sub Binary64.WINDOW_SEGMENT_SIZE_M 0%float))
    with 1e18%float.
  apply IH; cbn [Binary64.consumption_window Binary64.consumption_window_index].
  - rewrite !length_insert. exact Hlen.
  - exact Hj.
  - exists 0%float. apply list_lookup_insert_eq.
    rewrite length_insert, Hlen. exact Hj.
Qed.

(** * The claims *)

(** ** C1 *)




(** ** C2 *)

(** The claim as stated fails in its last part.  In binary64, after the four
    calls [_accumulate(703.9, 1)], [(435.5, 1)], [(674.9, 1)] and
    [(35.70000000000004, 1)] on a fresh instance, [total_distance] is
    1850.0000000000002. *)
Lemma total_distance_bound_counterexample :
  exists self',
    Binary64.after_calls
      [(703.9%float, 1%float); (435.5%float, 1%float); (674.9%float, 1%float);
       (35.70000000000004%float, 1%float)]
    = Returned self'
    /\ Binary64.consumption_window_total_distance self'
       = 1850.0000000000002%float
    /\ PrimFloat.ltb 1850%float
         (Binary64.consumption_window_total_distance self') = true.
Proof.
  eexists. split; [vm_compute; reflexivity|].
  split; vm_compute; reflexivity.
Qed.

(** C2, amended.  In every window reached from the initial one by calls of
    [_accumulate] with distances that are not negative, every segment holds a
    distance between 0 and [WINDOW_SEGMENT_SIZE_M] = 37, and consequently the
    distances of the 50 segments sum to at most 50 x 37 = 1850. *)
Theorem reachable_segments_bounded (self : MotorDriveConsumption) :
  reachable self ->
  Forall (fun seg => 0 <= seg_distance seg
                     /\ seg_distance seg <= WINDOW_SEGMENT_SIZE_M)
         (consumption_window self)
  /\ sum_distance (consumption_window self) <= 1850.
Proof.
  intros Hreach.
  destruct (reachable_window_ok _ Hreach) as [[[Hlen _] Hrange] _].
  split; [exact Hrange|].
  destruct (sum_distance_bound _ Hrange) as [_ Hsum].
  rewrite Hlen in Hsum.
  change (WINDOW_SEGMENT_SIZE_M * inject_Z (Z.of_nat WINDOW_SEGMENT_COUNT))
    with (37 * 50) in Hsum.
  lra.
Qed.

Lemma after_100m_returned : _accumulate 5 __init__ 100 10 = Returned after_100m.
Proof. vm_compute. reflexivity. Qed.

Lemma after_100m_reachable : reachable after_100m.
Proof.
  apply (reachable_accumulate __init__ after_100m 5%nat 100 10).
  - exact reachable_init.
  - vm_compute. discriminate.
  - exact after_100m_returned.
Defined.

Lemma reachable_segments_bounded_witness :
  reachable after_100m
  /\ Forall (fun seg => 0 <= seg_distance seg
                        /\ seg_distance seg <= WINDOW_SEGMENT_SIZE_M)
            (consumption_window after_100m)
  /\ sum_distance (consumption_window after_100m) <= 1850.
Proof.
  split; [exact after_100m_reachable|].
  exact (reachable_segments_bounded after_100m after_100m_reachable).
Defined.

(** ** C3 *)

(** The claim as stated fails.  In binary64 [1e18 - 37 == 1e18]: a call with
    distance [1e18] on a fresh instance never returns.  And with
    36.999999999999993 m in the write segment, the pass for a distance of 100
    fills the segment and leaves a distance of 100, not a smaller one. *)
Lemma accumulate_termination_counterexample :
  ~ (exists fuel self',
       Binary64._accumulate fuel Binary64.__init__ 1e18%float 1%float
       = Returned self')
  /\ (exists self1 self2 e',
        Binary64.after_calls [(36.999999999999993%float, 1%float)]
        = Returned self1
        /\ Binary64.accumulate_body self1 100%float 1%float
           = Some (self2, 100%float, e')).
Proof.
  split.
  - intros (fuel & self' & Hrun).
    unfold Binary64._accumulate in Hrun.
    rewrite binary64_loop_absorbs in Hrun; [discriminate | reflexivity | | ].
    + cbn [Binary64.consumption_window_index Binary64.__init__].
      unfold WINDOW_SEGMENT_COUNT. lia.
    + exists 0%float. reflexivity.
  - eexists _, _, _. split; vm_compute; reflexivity.
Qed.

(** C3, amended.  From every reachable window, for every distance between 0
    and 1,728,000 m (the most the filter can return:
    [MAXIMUM_SPEED_MS] x one day) and every energy, the [while] loop of
    [_accumulate] terminates: with enough fuel the call returns.  Every pass
    of the loop either takes all of the remaining distance into the write
    segment, or fills the write segment to capacity, advances the write
    index, evicts exactly the one segment it reaches, and goes on with a
    remaining distance that is not negative and not larger than before. *)
Theorem accumulate_loop_terminates (self : MotorDriveConsumption) (d e : Q) :
  reachable self ->
  0 <= d ->
  d <= 1728000 ->
  (exists fuel self', _accumulate fuel self d e = Returned self')
  /\ (forall st dist en,
        iterates (loop_entry self d e) (st, dist, en) ->
        0 < dist ->
        exists st' dist' en',
          accumulate_body st dist en = Some (st', dist', en')
          /\ (pass_consumes st dist en st' dist' en'
              \/ pass_fills_evicts_and_continues st dist en st' dist' en')).
Proof.
  intros Hreach Hd _.
  destruct (reachable_window_ok _ Hreach) as [Hok _].
  split; [exact (accumulate_returns _ _ e Hok Hd)|].
  intros st dist en Hit Hdist.
  destruct (iterates_window_ok (loop_entry self d e) (st, dist, en)) as [Hst _].
  { split; [exact (entry_window_ok _ _ _ Hok) | exact Hd]. }
  { exact Hit. }
  destruct (accumulate_body_defined st dist en (proj1 Hst))
    as (st' & dist' & en' & Hb).
  exists st', dist', en'. split; [exact Hb|].
  destruct (accumulate_body_pass _ _ _ _ _ _ Hst Hdist Hb) as [Hfit | Hfill];
    [left; exact Hfit | right].
  destruct Hfill as (H1 & H2 & H3 & H4 & H5 & H6 & H7 & H8).
  unfold pass_fills_evicts_and_continues. cbv zeta.
  repeat (split; [assumption|]). lra.
Qed.

Lemma accumulate_loop_terminates_witness :
  reachable after_100m
  /\ 0 <= 80
  /\ 80 <= 1728000
  /\ (exists fuel self', _accumulate fuel after_100m 80 (-3) = Returned self')
  /\ (forall st dist en,
        iterates (loop_entry after_100m 80 (-3)) (st, dist, en) ->
        0 < dist ->
        exists st' dist' en',
          accumulate_body st dist en = Some (st', dist', en')
          /\ (pass_consumes st dist en st' dist' en'
              \/ pass_fills_evicts_and_continues st dist en st' dist' en')).
Proof.
  assert (0 <= 80) as Hd by (vm_compute; discriminate).
  assert (80 <= 1728000) as Hcap by (vm_compute; discriminate).
  split; [exact after_100m_reachable|]. split; [exact Hd|].
  split; [exact Hcap|].
  exact (accumulate_loop_terminates after_100m 80 (-3) after_100m_reachable
           Hd Hcap).
Defined.

(** ** C10 *)

(** The claim as stated fails in its last part.  In binary64
    [10.0 + 1e-17 == 10.0]: on a window holding one movement of 5 m and
    10 Wh, a call with distance 0 and energy [1e-17] leaves the totals equal
    to the sums over the ring although the energy is not 0. *)
Lemma accumulate_zero_distance_counterexample :
  exists self1 self2,
    Binary64.after_calls [(5%float, 10%float)] = Returned self1
    /\ Binary64.totals_consistent self1 = true
    /\ Binary64._accumulate 0 self1 0%float 1e-17%float = Returned self2
    /\ Binary64.totals_consistent self2 = true
    /\ PrimFloat.eqb 1e-17%float 0%float = false.
Proof.
  eexists _, _. split; [vm_compute; reflexivity|].
  split; [vm_compute; reflexivity|]. split; [vm_compute; reflexivity|].
  split; vm_compute; reflexivity.
Qed.

(** C10, amended.  A call of [_accumulate] with distance 0 never enters the
    loop: it returns at once, with every segment and the write index as they
    were and [energy] added to [total_energy].  From a window whose totals
    equal the sums, the totals equal the sums afterwards exactly when adding
    [energy] leaves [total_energy] equal to what it was. *)
Theorem accumulate_zero_distance (fuel : nat) (self : MotorDriveConsumption)
    (e : Q) :
  exists self',
    _accumulate fuel self 0 e = Returned self'
    /\ consumption_window self' = consumption_window self
    /\ consumption_window_index self' = consumption_window_index self
    /\ consumption_window_total_energy self'
       = consumption_window_total_energy self + e
    /\ consumption_window_total_distance self'
       == consumption_window_total_distance self
    /\ (totals_consistent self ->
        (totals_consistent self'
         <-> consumption_window_total_energy self + e
             == consumption_window_total_energy self)).
Proof.
  eexists. split.
  - unfold _accumulate. apply accumulate_loop_done. apply Qle_refl.
  - fields. split; [reflexivity|]. split; [reflexivity|].
    split; [reflexivity|]. split; [lra|].
    intros [Htd Hte]. unfold totals_consistent. fields. split.
    + intros [_ Hte']. lra.
    + intros He. split; lra.
Qed.

Lemma accumulate_zero_distance_witness :
  exists self',
    _accumulate 0 after_100m 0 7 = Returned self'
    /\ consumption_window self' = consumption_window after_100m
    /\ consumption_window_index self' = consumption_window_index after_100m
    /\ consumption_window_total_energy self'
       = consumption_window_total_energy after_100m + 7
    /\ consumption_window_total_distance self'
       == consumption_window_total_distance after_100m
    /\ (totals_consistent after_100m ->
        (totals_consistent self'
         <-> consumption_window_total_energy after_100m + 7
             == consumption_window_total_energy after_100m)).
Proof.
  apply (accumulate_zero_distance 0 after_100m 7).
Defined.

(** ** C9 *)

(** C9.  [update_values] writes [/MotorDrive/Consumption] exactly when
    [total_distance > 0], and the value written is
    [total_energy / (total_distance / 1000)]; otherwise it leaves the
    dictionary as it is.  In particular the initial instance, whose totals are
    zero, reports no value. *)
Theorem update_values_reports (self : MotorDriveConsumption)
    (newvalues : gmap string Q) :
  newvalues !! "/MotorDrive/Consumption"%string = None ->
  (0 < consumption_window_total_distance self
   <-> is_Some (update_values self newvalues !! "/MotorDrive/Consumption"%string))
  /\ (0 < consumption_window_total_distance self ->
      update_values self newvalues
      = <["/MotorDrive/Consumption"%string :=
            consumption_window_total_energy self
            / (consumption_window_total_distance self / 1000)]> newvalues)
  /\ (consumption_window_total_distance self <= 0 ->
      update_values self newvalues = newvalues)
  /\ update_values __init__ newvalues = newvalues.
Proof.
  intros Hfresh. unfold update_values.
  change (String.append PREFIX "/Consumption") with "/MotorDrive/Consumption"%string.
  split; [|split; [|split]].
  - destruct (Qltb 0 (consumption_window_total_distance self)) eqn:Hd.
    + apply Qltb_lt in Hd. split; [|intros _; exact Hd].
      intros _. rewrite lookup_insert_eq. eauto.
    + apply Qltb_ge in Hd. rewrite Hfresh. split.
      * intros Hpos. lra.
      * intros [v Hv]. discriminate.
  - intros Hpos. apply Qltb_lt in Hpos. rewrite Hpos. reflexivity.
  - intros Hle. apply Qltb_ge in Hle. rewrite Hle. reflexivity.
  - reflexivity.
Qed.

Lemma update_values_reports_witness :
  (0 < consumption_window_total_distance after_100m
   <-> is_Some (update_values after_100m ∅ !! "/MotorDrive/Consumption"%string))
  /\ (0 < consumption_window_total_distance after_100m ->
      update_values after_100m ∅
      = <["/MotorDrive/Consumption"%string :=
            consumption_window_total_energy after_100m
            / (consumption_window_total_distance after_100m / 1000)]> ∅)
  /\ (consumption_window_total_distance after_100m <= 0 ->
      update_values after_100m ∅ = ∅)
  /\ update_values __init__ ∅ = ∅.
Proof.
  apply (update_values_reports after_100m ∅). reflexivity.
Defined.

(** ** C8 *)

(** C8.  When the power, the UTC time, the latitude or the longitude is
    missing, [_on_gps_update] returns with [last_point], [last_bearing] and
    [power_ema] unknown and [is_continuous] false, and with the ring, the
    write index and both totals as they were. *)
Theorem gps_update_missing_input (M : MathLib) (fuel : nat)
    (self : MotorDriveConsumption) (utc : option Z) (lat lon power : option Q) :
  power = None \/ utc = None \/ lat = None \/ lon = None ->
  exists self',
    _on_gps_update fuel self utc lat lon power = Returned self'
    /\ last_point self' = None
    /\ last_bearing self' = None
    /\ power_ema self' = None
    /\ is_continuous self' = false
    /\ consumption_window self' = consumption_window self
    /\ consumption_window_index self' = consumption_window_index self
    /\ consumption_window_total_distance self'
       = consumption_window_total_distance self
    /\ consumption_window_total_energy self'
       = consumption_window_total_energy self.
Proof.
  intros Hmissing. exists (reset_filter self). split.
  - unfold _on_gps_update.
    destruct power as [power|]; [|reflexivity].
    destruct utc as [utc|]; [|reflexivity].
    destruct lat as [lat|]; [|reflexivity].
    destruct lon as [lon|]; [|reflexivity].
    destruct Hmissing as [H | [H | [H | H]]]; discriminate.
  - repeat split.
Qed.

Lemma gps_update_missing_input_witness :
  exists self',
    _on_gps_update 0 after_100m (Some 1000%Z) (Some 0) (Some 0) None
    = Returned self'
    /\ last_point self' = None
    /\ last_bearing self' = None
    /\ power_ema self' = None
    /\ is_continuous self' = false
    /\ consumption_window self' = consumption_window after_100m
    /\ consumption_window_index self' = consumption_window_index after_100m
    /\ consumption_window_total_distance self'
       = consumption_window_total_distance after_100m
    /\ consumption_window_total_energy self'
       = consumption_window_total_energy after_100m.
Proof.
  apply (gps_update_missing_input rational_math 0 after_100m
           (Some 1000%Z) (Some 0) (Some 0) None).
  left. reflexivity.
Defined.

(** ** C7 *)

(** The claim as stated fails: with a smoothed power of 100 W, a sample of
    200 W after 0 ms leaves the smoothed power at 100 W. *)
Lemma ema_zero_dt_counterexample :
  power_ema smoothed_100w = Some 100
  /\ exists ema,
       power_ema (_calculate_energy_used smoothed_100w 200 0).1 = Some ema
       /\ ema == 100 /\ ~ ema == 200.
Proof.
  split; [reflexivity|]. eexists. split; [reflexivity|].
  split; vm_compute; [reflexivity | discriminate].
Qed.

(** C7, amended.  When [_calculate_energy_used] is called with [dt] exactly 0
    and a prior [power_ema], [alpha] is 0: [power_ema] keeps its prior value
    and the energy returned is 0.  [power_ema] becomes the raw power sample
    only when there is no prior [power_ema]. *)
Theorem ema_zero_dt (M : MathLib) (L : MathLibLaws M)
    (self : MotorDriveConsumption) (power : Q) :
  (forall prior, power_ema self = Some prior ->
     exists ema,
       power_ema (_calculate_energy_used self power 0).1 = Some ema
       /\ ema == prior)
  /\ (power_ema self = None ->
      power_ema (_calculate_energy_used self power 0).1 = Some power)
  /\ (_calculate_energy_used self power 0).2 == 0.
Proof.
  assert (exp (inject_Z (- 0) / POWER_EMA_MS) == 1) as Hexp.
  { apply exp_at_zero. reflexivity. }
  unfold _calculate_energy_used. cbv zeta. cbn [fst snd]. fields.
  split; [|split].
  - intros prior Hprior. rewrite Hprior. eexists. split; [reflexivity|].
    rewrite Hexp. ring.
  - intros Hnone. rewrite Hnone. reflexivity.
  - change (inject_Z 0) with 0. field.
Qed.

#[export] Instance rational_math_laws : MathLibLaws rational_math.
Proof.
  split. intros x Hx. cbn [exp rational_math]. unfold RationalMath.exp.
  rewrite Qred_correct, Hx. reflexivity.
Qed.

Lemma ema_zero_dt_witness :
  (forall prior, power_ema smoothed_100w = Some prior ->
     exists ema,
       power_ema (_calculate_energy_used smoothed_100w 200 0).1 = Some ema
       /\ ema == prior)
  /\ (power_ema smoothed_100w = None ->
      power_ema (_calculate_energy_used smoothed_100w 200 0).1 = Some 200)
  /\ (_calculate_energy_used smoothed_100w 200 0).2 == 0.
Proof.
  apply (ema_zero_dt rational_math rational_math_laws smoothed_100w 200).
Defined.

(** ** C5 *)

(** The claim as stated fails in its last part: heading east (90 degrees) at
    the origin, a fix 11 cm to the north one second later is rejected as too
    slow, and [last_bearing] is still 90 while the bearing to the fix is 0. *)
Lemma min_speed_rejection_counterexample :
  last_point (at_origin_heading (Some 90)) = Some origin
  /\ _haversine_distance_in_meter origin north_11cm_1s < distance_min 1000
  /\ (_calculate_distance_traveled (at_origin_heading (Some 90))
        north_11cm_1s 1000).2 = None
  /\ is_continuous (_calculate_distance_traveled (at_origin_heading (Some 90))
                      north_11cm_1s 1000).1 = false
  /\ last_bearing (_calculate_distance_traveled (at_origin_heading (Some 90))
                     north_11cm_1s 1000).1 = Some 90
  /\ _bearing_between_points origin north_11cm_1s == 0.
Proof.
  split; [reflexivity|]. split; [vm_compute; reflexivity|].
  split; [vm_compute; reflexivity|]. split; [vm_compute; reflexivity|].
  split; vm_compute; reflexivity.
Qed.

(** C5, amended.  When the raw distance from the previous point is below
    [MINIMUM_SPEED_MS x dt/1000], [_calculate_distance_traveled] returns no
    distance and sets [is_continuous] to false; it returns before the bearing
    is computed, so [last_bearing], like every other attribute, is left as
    it was. *)
Theorem min_speed_rejection (M : MathLib) (self : MotorDriveConsumption)
    (prev point : Point) (dt : Z) :
  last_point self = Some prev ->
  _haversine_distance_in_meter prev point < distance_min dt ->
  _calculate_distance_traveled self point dt = (set_is_continuous self false, None)
  /\ is_continuous (_calculate_distance_traveled self point dt).1 = false
  /\ last_bearing (_calculate_distance_traveled self point dt).1
     = last_bearing self.
Proof.
  intros Hprev Hslow. apply Qltb_lt in Hslow.
  unfold _calculate_distance_traveled. rewrite Hprev. cbv zeta.
  rewrite Hslow. repeat split.
Qed.

Lemma min_speed_rejection_witness :
  _calculate_distance_traveled (at_origin_heading (Some 90)) north_11cm_1s 1000
  = (set_is_continuous (at_origin_heading (Some 90)) false, None)
  /\ is_continuous (_calculate_distance_traveled (at_origin_heading (Some 90))
                      north_11cm_1s 1000).1 = false
  /\ last_bearing (_calculate_distance_traveled (at_origin_heading (Some 90))
                     north_11cm_1s 1000).1
     = last_bearing (at_origin_heading (Some 90)).
Proof.
  apply (min_speed_rejection rational_math (at_origin_heading (Some 90))
           origin north_11cm_1s 1000).
  - reflexivity.
  - vm_compute. reflexivity.
Defined.

(** ** C6 *)

(** C6.  For a sample that passed the minimum-speed test, when a previous
    bearing is known, the sample is continuous (its raw distance is at most
    [MAXIMUM_SPEED_MS x dt/1000]), the clamped distance is at least
    [BEARING_CHECK_MINIMUM_DISTANCE_M] = 1 and the angular difference
    [abs(((bearing - prev_bearing + 540) mod 360) - 180)] is at least
    [BEARING_CHECK_THRESHOLD_DEGREES] = 45, the filter returns no distance,
    sets [is_continuous] to false and forgets [last_bearing]. *)
Theorem bearing_discontinuity_rejection (M : MathLib)
    (self : MotorDriveConsumption) (prev point : Point) (prev_bearing : Q)
    (dt : Z) :
  last_point self = Some prev ->
  last_bearing self = Some prev_bearing ->
  distance_min dt <= _haversine_distance_in_meter prev point ->
  _haversine_distance_in_meter prev point <= distance_max dt ->
  BEARING_CHECK_MINIMUM_DISTANCE_M
    <= py_min (_haversine_distance_in_meter prev point) (distance_max dt) ->
  BEARING_CHECK_THRESHOLD_DEGREES
    <= Qabs (Qmod (_bearing_between_points prev point - prev_bearing + 540) 360
             - 180) ->
  (_calculate_distance_traveled self point dt).2 = None
  /\ is_continuous (_calculate_distance_traveled self point dt).1 = false
  /\ last_bearing (_calculate_distance_traveled self point dt).1 = None.
Proof.
  intros Hprev Hbearing Hmin Hmax Hfar Hturn.
  apply Qltb_ge in Hmin. apply Qle_bool_iff in Hmax, Hfar, Hturn.
  unfold _calculate_distance_traveled. rewrite Hprev. cbv zeta.
  rewrite Hmin. fields. rewrite Hbearing, Hmax, Hfar.
  unfold bearing_diff. rewrite Hturn. repeat split.
Qed.

Lemma bearing_discontinuity_rejection_witness :
  (_calculate_distance_traveled (at_origin_heading (Some 270))
     east_111m_60s 60000).2 = None
  /\ is_continuous (_calculate_distance_traveled (at_origin_heading (Some 270))
                      east_111m_60s 60000).1 = false
  /\ last_bearing (_calculate_distance_traveled (at_origin_heading (Some 270))
                     east_111m_60s 60000).1 = None.
Proof.
  apply (bearing_discontinuity_rejection rational_math
           (at_origin_heading (Some 270)) origin east_111m_60s 270 60000).
  - reflexivity.
  - reflexivity.
  - vm_compute. discriminate.
  - vm_compute. discriminate.
  - vm_compute. discriminate.
  - vm_compute. discriminate.
Defined.

(** ** C4 *)

(** The claim as stated fails: heading west (270 degrees) at the origin, a
    fix 111 m to the east a minute later is above the minimum and below the
    maximum speed, yet the filter returns no distance and sets
    [is_continuous] to false, because of the change of bearing. *)
Lemma speed_clamp_counterexample :
  last_point (at_origin_heading (Some 270)) = Some origin
  /\ distance_min 60000 <= _haversine_distance_in_meter origin east_111m_60s
  /\ _haversine_distance_in_meter origin east_111m_60s <= distance_max 60000
  /\ (_calculate_distance_traveled (at_origin_heading (Some 270))
        east_111m_60s 60000).2 = None
  /\ is_continuous (_calculate_distance_traveled (at_origin_heading (Some 270))
                      east_111m_60s 60000).1 = false.
Proof.
  split; [reflexivity|]. split; [vm_compute; discriminate|].
  split; [vm_compute; discriminate|]. split; vm_compute; reflexivity.
Qed.

(** C4, amended.  For a prior point and a current point whose raw distance is
    at least [MINIMUM_SPEED_MS x dt/1000], and unless the sample is rejected
    for its change of bearing (C6), the filter sets
    [is_continuous = (distance_raw <= MAXIMUM_SPEED_MS x dt/1000)], stores the
    bearing and returns [min(distance_raw, MAXIMUM_SPEED_MS x dt/1000)].  A
    sample above the maximum speed is never rejected for its bearing: the
    filter returns the cap [MAXIMUM_SPEED_MS x dt/1000] with [is_continuous]
    false, and [_on_gps_update] hands that capped distance to
    [_accumulate]. *)
Theorem speed_clamp (M : MathLib) (fuel : nat) (self : MotorDriveConsumption)
    (prev : Point) (utc : Z) (lat lon power : Q) (dt : Z) :
  last_point self = Some prev ->
  distance_min dt <= _haversine_distance_in_meter prev (mkPoint utc lat lon) ->
  (bearing_discontinuity self
     (_haversine_distance_in_meter prev (mkPoint utc lat lon))
     (_bearing_between_points prev (mkPoint utc lat lon)) dt = false ->
   _calculate_distance_traveled self (mkPoint utc lat lon) dt
   = (set_last_bearing
        (set_is_continuous self
           (Qle_bool (_haversine_distance_in_meter prev (mkPoint utc lat lon))
                     (distance_max dt)))
        (Some (_bearing_between_points prev (mkPoint utc lat lon))),
      Some (py_min (_haversine_distance_in_meter prev (mkPoint utc lat lon))
                   (distance_max dt))))
  /\ (distance_max dt < _haversine_distance_in_meter prev (mkPoint utc lat lon) ->
      _calculate_distance_traveled self (mkPoint utc lat lon) dt
      = (set_last_bearing (set_is_continuous self false)
           (Some (_bearing_between_points prev (mkPoint utc lat lon))),
         Some (distance_max dt))
      /\ (dt = elapsed_ms self (mkPoint utc lat lon) ->
          _on_gps_update fuel self (Some utc) (Some lat) (Some lon) (Some power)
          = outcome_bind
              (_accumulate fuel
                 (_calculate_energy_used
                    (set_last_bearing (set_is_continuous self false)
                       (Some (_bearing_between_points prev (mkPoint utc lat lon))))
                    power dt).1
                 (distance_max dt)
                 (_calculate_energy_used
                    (set_last_bearing (set_is_continuous self false)
                       (Some (_bearing_between_points prev (mkPoint utc lat lon))))
                    power dt).2)
              (fun self3 =>
                 Returned (set_last_point self3 (Some (mkPoint utc lat lon)))))).
Proof.
  intros Hprev Hmin. apply Qltb_ge in Hmin.
  assert (forall b,
    bearing_discontinuity self
      (_haversine_distance_in_meter prev (mkPoint utc lat lon))
      (_bearing_between_points prev (mkPoint utc lat lon)) dt = false ->
    Qle_bool (_haversine_distance_in_meter prev (mkPoint utc lat lon))
      (distance_max dt) = b ->
    _calculate_distance_traveled self (mkPoint utc lat lon) dt
    = (set_last_bearing (set_is_continuous self b)
         (Some (_bearing_between_points prev (mkPoint utc lat lon))),
       Some (py_min (_haversine_distance_in_meter prev (mkPoint utc lat lon))
                    (distance_max dt)))) as Hpass.
  { intros b Hno Hb. unfold bearing_discontinuity in Hno.
    unfold _calculate_distance_traveled. rewrite Hprev. cbv zeta.
    rewrite Hmin. fields. rewrite Hb in *.
    destruct (last_bearing self) as [prev_bearing|]; [|reflexivity].
    rewrite Hno. reflexivity. }
  split.
  - intros Hno. apply Hpass; [exact Hno | reflexivity].
  - intros Hfast.
    assert (Qle_bool (_haversine_distance_in_meter prev (mkPoint utc lat lon))
              (distance_max dt) = false) as Hb.
    { destruct (Qle_bool _ _) eqn:Hle; [|reflexivity].
      apply Qle_bool_iff in Hle. lra. }
    assert (py_min (_haversine_distance_in_meter prev (mkPoint utc lat lon))
              (distance_max dt) = distance_max dt) as Hcap.
    { unfold py_min. apply Qltb_lt in Hfast. rewrite Hfast. reflexivity. }
    assert (_calculate_distance_traveled self (mkPoint utc lat lon) dt
            = (set_last_bearing (set_is_continuous self false)
                 (Some (_bearing_between_points prev (mkPoint utc lat lon))),
               Some (distance_max dt))) as Hres.
    { rewrite (Hpass false); [rewrite Hcap; reflexivity | | exact Hb].
      unfold bearing_discontinuity. rewrite Hb.
      destruct (last_bearing self); reflexivity. }
    split; [exact Hres|].
    intros Hdt. unfold _on_gps_update. rewrite <- Hdt, Hres.
    destruct (_calculate_energy_used _ power dt) as [self2 energy].
    reflexivity.
Qed.

Lemma speed_clamp_witness :
  last_point (at_origin_heading (Some 270)) = Some origin
  /\ distance_min 60000 <= _haversine_distance_in_meter origin east_2224m_60s
  /\ distance_max 60000 < _haversine_distance_in_meter origin east_2224m_60s
  /\ (_calculate_distance_traveled (at_origin_heading (Some 270))
        east_2224m_60s 60000).2
     = Some (distance_max 60000)
  /\ is_continuous (_calculate_distance_traveled (at_origin_heading (Some 270))
                      east_2224m_60s 60000).1 = false.
Proof.
  assert (distance_min 60000
          <= _haversine_distance_in_meter origin east_2224m_60s) as Hmin
    by (vm_compute; discriminate).
  assert (distance_max 60000
          < _haversine_distance_in_meter origin east_2224m_60s) as Hfast
    by (vm_compute; reflexivity).
  split; [reflexivity|]. split; [exact Hmin|]. split; [exact Hfast|].
  destruct (speed_clamp rational_math 3 (at_origin_heading (Some 270)) origin
              60000%Z 0 (2 # 100) 1000 60000 eq_refl Hmin) as [_ Hcap].
  destruct (Hcap Hfast) as [Hres _].
  change (mkPoint 60000 0 (2 # 100)) with east_2224m_60s in Hres.
  rewrite Hres. split; reflexivity.
Defined.

(** * Further properties of the delegate *)

(** ** Bearings *)

Lemma Qmod_360_range (x : Q) : 0 <= Qmod x 360 /\ Qmod x 360 < 360.
Proof.
  unfold Qmod.
  assert (x == 360 * (x / 360)) as Hx by (field; discriminate).
  pose proof (Qfloor_le (x / 360)) as Hlo.
  pose proof (Qlt_floor (x / 360)) as Hhi.
  rewrite inject_Z_plus in Hhi. change (inject_Z 1) with 1 in Hhi.
  generalize dependent (inject_Z (Qfloor (x / 360))). intros f Hlo Hhi.
  generalize dependent (x / 360). intros q Hx Hlo Hhi.
  split; lra.
Qed.

(** X1.  Whatever [atan2] and [degrees] return, the bearing between two
    points is normalised into [0, 360). *)
Theorem bearing_in_range (M : MathLib) (point1 point2 : Point) :
  0 <= _bearing_between_points point1 point2
  /\ _bearing_between_points point1 point2 < 360.
Proof. unfold _bearing_between_points. cbv zeta. apply Qmod_360_range. Qed.

(** X2.  The angular difference used by the bearing test is between 0 and
    180 degrees for any two bearings. *)
Theorem bearing_diff_range (bearing prev_bearing : Q) :
  0 <= bearing_diff bearing prev_bearing
  /\ bearing_diff bearing prev_bearing <= 180.
Proof.
  unfold bearing_diff. split; [apply Qabs_nonneg|].
  apply Qabs_Qle_condition.
  destruct (Qmod_360_range (bearing - prev_bearing + 540)) as [Hlo Hhi].
  split; lra.
Qed.

(** ** The continuity filter *)

Lemma ms_nonneg (dt : Z) : (0 <= dt)%Z -> 0 <= inject_Z dt / 1000.
Proof.
  intros Hdt. apply Qle_shift_div_l; [reflexivity|]. rewrite Qmult_0_l.
  change 0 with (inject_Z 0). rewrite <- Zle_Qle. exact Hdt.
Qed.

(** The result of the filter for a sample that passed the minimum-speed
    test, by the outcome of the bearing test. *)
Lemma filter_after_min_speed (M : MathLib) (self : MotorDriveConsumption)
    (prev point : Point) (dt : Z) :
  last_point self = Some prev ->
  distance_min dt <= _haversine_distance_in_meter prev point ->
  _calculate_distance_traveled self point dt
  = (if bearing_discontinuity self (_haversine_distance_in_meter prev point)
          (_bearing_between_points prev point) dt
     then (set_last_bearing (set_is_continuous self false) None, None)
     else (set_last_bearing
             (set_is_continuous self
                (Qle_bool (_haversine_distance_in_meter prev point)
                   (distance_max dt)))
             (Some (_bearing_between_points prev point)),
           Some (py_min (_haversine_distance_in_meter prev point)
                   (distance_max dt)))).
Proof.
  intros Hprev Hmin. apply Qltb_ge in Hmin.
  unfold _calculate_distance_traveled, bearing_discontinuity.
  rewrite Hprev. cbv zeta. rewrite Hmin. fields.
  destruct (last_bearing self) as [prev_bearing|]; [|reflexivity].
  destruct (Qle_bool _ (distance_max dt)); [|reflexivity].
  cbn [andb]. destruct (_ && _); reflexivity.
Qed.

(** The three ways out of the filter when a previous point is known. *)
Lemma filter_outcomes (M : MathLib) (self : MotorDriveConsumption)
    (prev point : Point) (dt : Z) :
  last_point self = Some prev ->
  let raw := _haversine_distance_in_meter prev point in
  let bearing := _bearing_between_points prev point in
  (raw < distance_min dt
   /\ _calculate_distance_traveled self point dt
      = (set_is_continuous self false, None))
  \/ (distance_min dt <= raw
      /\ bearing_discontinuity self raw bearing dt = true
      /\ _calculate_distance_traveled self point dt
         = (set_last_bearing (set_is_continuous self false) None, None))
  \/ (distance_min dt <= raw
      /\ bearing_discontinuity self raw bearing dt = false
      /\ _calculate_distance_traveled self point dt
         = (set_last_bearing
              (set_is_continuous self (Qle_bool raw (distance_max dt)))
              (Some bearing),
            Some (py_min raw (distance_max dt)))).
Proof.
  intros Hprev. cbv zeta.
  destruct (Qltb (_haversine_distance_in_meter prev point) (distance_min dt))
    eqn:Hmin.
  - left. split; [apply Qltb_lt; exact Hmin|].
    unfold _calculate_distance_traveled. rewrite Hprev. cbv zeta.
    rewrite Hmin. reflexivity.
  - right. apply Qltb_ge in Hmin.
    rewrite (filter_after_min_speed M self prev point dt Hprev Hmin).
    destruct (bearing_discontinuity self _ _ dt); [left | right]; auto.
Qed.

(** X4.  A distance that the filter returns is that of a speed between the
    minimum and the maximum: with [dt] not negative it lies between
    [MINIMUM_SPEED_MS x dt/1000] and [MAXIMUM_SPEED_MS x dt/1000]. *)
Theorem filter_distance_in_speed_band (M : MathLib)
    (self : MotorDriveConsumption) (point : Point) (dt : Z) (d : Q) :
  (0 <= dt)%Z ->
  (_calculate_distance_traveled self point dt).2 = Some d ->
  distance_min dt <= d /\ d <= distance_max dt.
Proof.
  intros Hdt Hres. pose proof (ms_nonneg dt Hdt) as Hms.
  destruct (last_point self) as [prev|] eqn:Hprev.
  - destruct (filter_outcomes M self prev point dt Hprev)
      as [[_ Hr] | [(_ & _ & Hr) | (Hmin & _ & Hr)]];
      rewrite Hr in Hres; cbn [snd] in Hres; try discriminate.
    injection Hres as <-.
    pose proof (py_min_le_r (_haversine_distance_in_meter prev point)
                  (distance_max dt)) as Hcap.
    split; [|exact Hcap].
    destruct (py_min_cases (_haversine_distance_in_meter prev point)
                (distance_max dt)) as [-> | ->]; [exact Hmin|].
    unfold distance_min, distance_max, MINIMUM_SPEED_MS, MAXIMUM_SPEED_MS.
    lra.
  - unfold _calculate_distance_traveled in Hres. rewrite Hprev in Hres.
    discriminate.
Qed.

Lemma filter_distance_in_speed_band_witness :
  (0 <= 60000)%Z
  /\ (_calculate_distance_traveled (at_origin_heading (Some 90))
        east_2224m_60s 60000).2 = Some (distance_max 60000)
  /\ distance_min 60000 <= distance_max 60000
  /\ distance_max 60000 <= distance_max 60000.
Proof.
  assert ((0 <= 60000)%Z) as Hdt by lia.
  assert ((_calculate_distance_traveled (at_origin_heading (Some 90))
             east_2224m_60s 60000).2 = Some (distance_max 60000)) as Hres
    by (vm_compute; reflexivity).
  split; [exact Hdt|]. split; [exact Hres|].
  exact (filter_distance_in_speed_band rational_math
           (at_origin_heading (Some 90)) east_2224m_60s 60000
           (distance_max 60000) Hdt Hres).
Defined.

(** X5.  When a previous point is known, [is_continuous] is true after the
    filter only for a sample it accepted unclamped: the raw distance is
    returned as it is, it lies between the minimum and the maximum, and the
    bearing to the sample is the new [last_bearing]. *)
Theorem filter_continuous_means_accepted (M : MathLib)
    (self : MotorDriveConsumption) (prev point : Point) (dt : Z) :
  last_point self = Some prev ->
  is_continuous (_calculate_distance_traveled self point dt).1 = true ->
  (_calculate_distance_traveled self point dt).2
  = Some (_haversine_distance_in_meter prev point)
  /\ last_bearing (_calculate_distance_traveled self point dt).1
     = Some (_bearing_between_points prev point)
  /\ distance_min dt <= _haversine_distance_in_meter prev point
  /\ _haversine_distance_in_meter prev point <= distance_max dt.
Proof.
  intros Hprev.
  destruct (filter_outcomes M self prev point dt Hprev)
    as [[_ Hr] | [(_ & _ & Hr) | (Hmin & _ & Hr)]];
    rewrite Hr; cbn [fst snd]; fields; try discriminate.
  intros Hle. unfold py_min, Qltb. rewrite Hle. cbn [negb].
  apply Qle_bool_iff in Hle. auto.
Qed.

Lemma filter_continuous_means_accepted_witness :
  last_point (at_origin_heading (Some 90)) = Some origin
  /\ is_continuous (_calculate_distance_traveled (at_origin_heading (Some 90))
                      east_111m_60s 60000).1 = true
  /\ (_calculate_distance_traveled (at_origin_heading (Some 90))
        east_111m_60s 60000).2
     = Some (_haversine_distance_in_meter origin east_111m_60s)
  /\ last_bearing (_calculate_distance_traveled (at_origin_heading (Some 90))
                     east_111m_60s 60000).1
     = Some (_bearing_between_points origin east_111m_60s)
  /\ distance_min 60000 <= _haversine_distance_in_meter origin east_111m_60s
  /\ _haversine_distance_in_meter origin east_111m_60s <= distance_max 60000.
Proof.
  assert (is_continuous (_calculate_distance_traveled
                           (at_origin_heading (Some 90))
                           east_111m_60s 60000).1 = true) as Hc
    by (vm_compute; reflexivity).
  split; [reflexivity|]. split; [exact Hc|].
  exact (filter_continuous_means_accepted rational_math
           (at_origin_heading (Some 90)) origin east_111m_60s 60000
           eq_refl Hc).
Defined.

(** The filter writes [is_continuous] and [last_bearing] only. *)
Lemma filter_frame (M : MathLib) (self : MotorDriveConsumption)
    (point : Point) (dt : Z) :
  same_window self (_calculate_distance_traveled self point dt).1
  /\ last_point (_calculate_distance_traveled self point dt).1 = last_point self
  /\ power_ema (_calculate_distance_traveled self point dt).1 = power_ema self.
Proof.
  unfold same_window.
  destruct (last_point self) as [prev|] eqn:Hprev.
  - destruct (filter_outcomes M self prev point dt Hprev)
      as [[_ Hr] | [(_ & _ & Hr) | (_ & _ & Hr)]];
      rewrite Hr; cbn [fst snd]; fields; rewrite ?Hprev; repeat split.
  - unfold _calculate_distance_traveled. rewrite Hprev. cbn [fst snd].
    rewrite Hprev. repeat split.
Qed.

(** X6.  The filter never touches the window, the retained point or the
    smoothed power, whatever it decides about the sample. *)
Theorem filter_leaves_window_and_point (M : MathLib)
    (self : MotorDriveConsumption) (point : Point) (dt : Z) :
  consumption_window (_calculate_distance_traveled self point dt).1
  = consumption_window self
  /\ consumption_window_index (_calculate_distance_traveled self point dt).1
     = consumption_window_index self
  /\ consumption_window_total_distance
       (_calculate_distance_traveled self point dt).1
     = consumption_window_total_distance self
  /\ consumption_window_total_energy
       (_calculate_distance_traveled self point dt).1
     = consumption_window_total_energy self
  /\ last_point (_calculate_distance_traveled self point dt).1 = last_point self
  /\ power_ema (_calculate_distance_traveled self point dt).1 = power_ema self.
Proof.
  destruct (filter_frame M self point dt) as [(H1 & H2 & H3 & H4) [H5 H6]].
  repeat split; assumption.
Qed.

(** ** The power smoother *)

(** X8.  A steady power is a fixed point of the smoother, for every elapsed
    time and whatever [exp] returns: when there is no prior [power_ema], or
    the prior one equals the sample, the new [power_ema] is the sample and
    the energy returned is [power x (dt/1000) / 3600] watt-hours. *)
Theorem ema_steady_power (M : MathLib) (self : MotorDriveConsumption)
    (power : Q) (dt : Z) :
  (power_ema self = None
   \/ exists prior, power_ema self = Some prior /\ prior == power) ->
  exists ema,
    power_ema (_calculate_energy_used self power dt).1 = Some ema
    /\ ema == power
    /\ (_calculate_energy_used self power dt).2
       == power * (inject_Z dt / 1000) / 3600.
Proof.
  intros Hsteady. unfold _calculate_energy_used. cbv zeta. cbn [fst snd].
  fields. eexists. split; [reflexivity|].
  assert (match power_ema self with
          | Some ema0 =>
              ema0 + (1 - exp (inject_Z (- dt) / POWER_EMA_MS)) * (power - ema0)
          | None => power
          end == power) as Hema.
  { destruct Hsteady as [-> | (prior & -> & Hp)]; [reflexivity|].
    rewrite Hp. ring. }
  split; [exact Hema|]. rewrite Hema. reflexivity.
Qed.

Lemma ema_steady_power_witness :
  (power_ema smoothed_100w = None
   \/ exists prior, power_ema smoothed_100w = Some prior /\ prior == 100)
  /\ exists ema,
       power_ema (_calculate_energy_used smoothed_100w 100 60000).1 = Some ema
       /\ ema == 100
       /\ (_calculate_energy_used smoothed_100w 100 60000).2
          == 100 * (inject_Z 60000 / 1000) / 3600.
Proof.
  assert (power_ema smoothed_100w = None
          \/ exists prior, power_ema smoothed_100w = Some prior /\ prior == 100)
    as Hsteady.
  { right. exists 100. split; reflexivity. }
  split; [exact Hsteady|].
  exact (ema_steady_power rational_math smoothed_100w 100 60000 Hsteady).
Defined.

(** ** More on [_accumulate] *)

Lemma accumulate_body_frame (self self' : MotorDriveConsumption)
    (d e d' e' : Q) :
  accumulate_body self d e = Some (self', d', e') ->
  same_filter_state self self'.
Proof.
  intros Hb.
  destruct (accumulate_body_cases _ _ _ _ _ _ Hb) as (seg & _ & Hcase).
  destruct Hcase as [(_ & -> & _) | (_ & old & _ & -> & _)];
    repeat split.
Qed.

Lemma same_filter_state_trans (s1 s2 s3 : MotorDriveConsumption) :
  same_filter_state s1 s2 -> same_filter_state s2 s3 -> same_filter_state s1 s3.
Proof.
  intros (H1 & H2 & H3 & H4) (K1 & K2 & K3 & K4).
  repeat split; congruence.
Qed.

Lemma accumulate_frame (fuel : nat) (self self' : MotorDriveConsumption)
    (d e : Q) :
  _accumulate fuel self d e = Returned self' ->
  same_filter_state self self'.
Proof.
  intros Hrun. unfold _accumulate in Hrun.
  assert (forall s d e s' d' e',
            same_filter_state self s -> 0 < d ->
            accumulate_body s d e = Some (s', d', e') ->
            same_filter_state self s') as Hbody.
  { intros s d0 e0 s' d' e' Hs _ Hb.
    exact (same_filter_state_trans _ _ _ Hs
             (accumulate_body_frame _ _ _ _ _ _ Hb)). }
  match type of Hrun with accumulate_loop _ ?s _ _ = _ =>
    assert (same_filter_state self s) as Hentry by (repeat split)
  end.
  destruct (accumulate_loop_rule (fun s _ _ => same_filter_state self s) Hbody
              fuel _ _ _ _ Hentry Hrun)
    as (d' & e' & Hsame & _).
  exact Hsame.
Qed.

(** X9.  [_accumulate] changes the window only: the retained point, the last
    bearing, the continuity flag and the smoothed power are as before. *)
Theorem accumulate_leaves_filter_state (fuel : nat)
    (self self' : MotorDriveConsumption) (d e : Q) :
  _accumulate fuel self d e = Returned self' ->
  last_point self' = last_point self
  /\ last_bearing self' = last_bearing self
  /\ is_continuous self' = is_continuous self
  /\ power_ema self' = power_ema self.
Proof. intros Hrun. exact (accumulate_frame fuel self self' d e Hrun). Qed.

Lemma accumulate_leaves_filter_state_witness :
  _accumulate 5 __init__ 100 10 = Returned after_100m
  /\ last_point after_100m = last_point __init__
  /\ last_bearing after_100m = last_bearing __init__
  /\ is_continuous after_100m = is_continuous __init__
  /\ power_ema after_100m = power_ema __init__.
Proof.
  assert (_accumulate 5 __init__ 100 10 = Returned after_100m) as Hrun
    by (vm_compute; reflexivity).
  split; [exact Hrun|].
  exact (accumulate_leaves_filter_state 5 __init__ after_100m 100 10 Hrun).
Defined.

(** X10.  In every reachable window the ring has its 50 segments and the
    write index is one of them; so a call of [_accumulate] never raises
    [IndexError], whatever the distance and the energy and however long it
    is allowed to run. *)
Theorem reachable_ring_shape (self : MotorDriveConsumption) :
  reachable self ->
  length (consumption_window self) = WINDOW_SEGMENT_COUNT
  /\ (consumption_window_index self < WINDOW_SEGMENT_COUNT)%nat
  /\ (forall fuel d e, _accumulate fuel self d e <> IndexError).
Proof.
  intros Hreach.
  destruct (reachable_window_ok _ Hreach) as [Hok _].
  pose proof (window_ok_ring_shape _ Hok) as Hshape.
  split; [exact (proj1 Hshape)|]. split; [exact (proj2 Hshape)|].
  intros fuel d e. unfold _accumulate.
  apply accumulate_loop_ring_shape. exact Hshape.
Qed.

Lemma reachable_ring_shape_witness :
  reachable after_100m
  /\ length (consumption_window after_100m) = WINDOW_SEGMENT_COUNT
  /\ (consumption_window_index after_100m < WINDOW_SEGMENT_COUNT)%nat
  /\ (forall fuel d e, _accumulate fuel after_100m d e <> IndexError).
Proof.
  split; [exact after_100m_reachable|].
  exact (reachable_ring_shape after_100m after_100m_reachable).
Defined.

(** X11.  When the write index is outside the ring, a call of [_accumulate]
    with a positive distance raises [IndexError] on its first access. *)
Theorem accumulate_index_error (fuel : nat) (self : MotorDriveConsumption)
    (d e : Q) :
  (length (consumption_window self) <= consumption_window_index self)%nat ->
  0 < d ->
  _accumulate (S fuel) self d e = IndexError.
Proof.
  intros Hout Hd. apply Qltb_lt in Hd.
  unfold _accumulate. cbn [accumulate_loop]. rewrite Hd.
  unfold accumulate_body. fields.
  rewrite (lookup_ge_None_2 _ _ Hout). reflexivity.
Qed.

Lemma accumulate_index_error_witness :
  (length (consumption_window index_out_of_ring)
   <= consumption_window_index index_out_of_ring)%nat
  /\ 0 < 5
  /\ _accumulate 1 index_out_of_ring 5 1 = IndexError.
Proof.
  assert ((length (consumption_window index_out_of_ring)
           <= consumption_window_index index_out_of_ring)%nat) as Hout
    by (vm_compute; lia).
  assert (0 < 5) as Hd by reflexivity.
  split; [exact Hout|]. split; [exact Hd|].
  exact (accumulate_index_error 0 index_out_of_ring 5 1 Hout Hd).
Defined.

(** X12.  A negative distance is not rejected: the call returns at once, the
    ring and the write index are unchanged, and the distance and the energy
    are still added to the totals. *)
Theorem accumulate_negative_distance (fuel : nat)
    (self : MotorDriveConsumption) (d e : Q) :
  d < 0 ->
  exists self',
    _accumulate fuel self d e = Returned self'
    /\ consumption_window self' = consumption_window self
    /\ consumption_window_index self' = consumption_window_index self
    /\ consumption_window_total_distance self'
       = consumption_window_total_distance self + d
    /\ consumption_window_total_energy self'
       = consumption_window_total_energy self + e.
Proof.
  intros Hd. eexists. split.
  - unfold _accumulate. apply accumulate_loop_done. lra.
  - repeat split.
Qed.

Lemma accumulate_negative_distance_witness :
  -5 < 0
  /\ exists self',
       _accumulate 0 after_100m (-5) 1 = Returned self'
       /\ consumption_window self' = consumption_window after_100m
       /\ consumption_window_index self' = consumption_window_index after_100m
       /\ consumption_window_total_distance self'
          = consumption_window_total_distance after_100m + -5
       /\ consumption_window_total_energy self'
          = consumption_window_total_energy after_100m + 1.
Proof.
  assert (-5 < 0) as Hd by reflexivity.
  split; [exact Hd|].
  exact (accumulate_negative_distance 0 after_100m (-5) 1 Hd).
Defined.

(** X13.  A movement shorter than the room left in the write segment goes
    into that segment whole: its distance and energy are added to the write
    segment and to the totals, and nothing else changes. *)
Theorem accumulate_fits (fuel : nat) (self : MotorDriveConsumption)
    (seg : Segment) (d e : Q) :
  consumption_window self !! consumption_window_index self = Some seg ->
  0 < d ->
  d < WINDOW_SEGMENT_SIZE_M - seg_distance seg ->
  _accumulate (S fuel) self d e
  = Returned
      (with_window self
         (<[consumption_window_index self :=
              mkSegment (seg_distance seg + d) (seg_energy seg + e)]>
            (consumption_window self))
         (consumption_window_index self)
         (consumption_window_total_distance self + d)
         (consumption_window_total_energy self + e)).
Proof.
  intros Hseg Hd Hfit. apply Qltb_lt in Hd, Hfit.
  unfold _accumulate. cbn [accumulate_loop]. rewrite Hd.
  unfold accumulate_body. fields. rewrite Hseg.
  cbv beta iota zeta delta [mbind option_bind]. rewrite Hfit.
  rewrite accumulate_loop_done by apply Qle_refl. reflexivity.
Qed.

Lemma accumulate_fits_witness :
  consumption_window __init__ !! consumption_window_index __init__
  = Some (mkSegment 0 0)
  /\ 0 < 10
  /\ 10 < WINDOW_SEGMENT_SIZE_M - seg_distance (mkSegment 0 0)
  /\ _accumulate 1 __init__ 10 2
     = Returned
         (with_window __init__
            (<[consumption_window_index __init__ :=
                 mkSegment (seg_distance (mkSegment 0 0) + 10)
                           (seg_energy (mkSegment 0 0) + 2)]>
               (consumption_window __init__))
            (consumption_window_index __init__)
            (consumption_window_total_distance __init__ + 10)
            (consumption_window_total_energy __init__ + 2)).
Proof.
  assert (0 < 10) as Hd by reflexivity.
  assert (10 < WINDOW_SEGMENT_SIZE_M - seg_distance (mkSegment 0 0)) as Hfit
    by reflexivity.
  split; [reflexivity|]. split; [exact Hd|]. split; [exact Hfit|].
  exact (accumulate_fits 0 __init__ (mkSegment 0 0) 10 2 eq_refl Hd Hfit).
Defined.

(** ** What the ring holds *)

Lemma sum_distance_lookup_le (cw : list Segment) (i : nat) (seg : Segment) :
  Forall segment_in_range cw ->
  cw !! i = Some seg ->
  seg_distance seg <= sum_distance cw.
Proof.
  intros Hrange. revert i.
  induction Hrange as [|s cw [Hlo _] Hrest IH]; intros [|i] Hi;
    try discriminate.
  - injection Hi as ->. destruct (sum_distance_bound cw Hrest) as [H0 _].
    change (sum_distance (seg :: cw)) with (seg_distance seg + sum_distance cw).
    lra.
  - change (sum_distance (s :: cw)) with (seg_distance s + sum_distance cw).
    specialize (IH i Hi). lra.
Qed.

(** The loop invariant for "something is in the window": distance is still
    to be written, or the ring already holds some. *)
Definition loop_holds_distance (self : MotorDriveConsumption) (d : Q) : Prop :=
  window_ok self /\ 0 <= d /\ distance_ahead self d
  /\ (0 < d \/ 0 < sum_distance (consumption_window self)).

Lemma accumulate_body_holds_distance (self self' : MotorDriveConsumption)
    (d e d' e' : Q) :
  loop_holds_distance self d -> 0 < d ->
  accumulate_body self d e = Some (self', d', e') ->
  loop_holds_distance self' d'.
Proof.
  intros (Hok & Hd0 & Hahead & _) Hd Hb.
  destruct (accumulate_body_window_ok _ _ _ _ _ _ (conj Hok Hd0) Hd Hb)
    as [Hok' Hd'].
  destruct (accumulate_body_distance_ahead _ _ _ _ _ _ (conj Hahead Hd0) Hd Hb)
    as [Hahead' _].
  split; [exact Hok'|]. split; [exact Hd'|]. split; [exact Hahead'|].
  right.
  destruct (accumulate_body_pass _ _ _ _ _ _ Hok Hd Hb)
    as [(_ & _ & _ & seg & Hseg & Hcw) | Hfill].
  - rewrite Hcw.
    pose proof (sum_distance_insert _ _ _
      (mkSegment (seg_distance seg + d) (seg_energy seg + e)) Hseg) as Hsum.
    destruct (sum_distance_bound _ (proj2 Hok)) as [H0 _]. fields. lra.
  - destruct Hfill as (_ & _ & (filled & Hfilled & Hfull) & _).
    pose proof (sum_distance_lookup_le _ _ _ (proj2 Hok') Hfilled) as Hle.
    unfold WINDOW_SEGMENT_SIZE_M in Hfull. lra.
Qed.

(** X14.  After a call of [_accumulate] with a positive distance on a
    reachable window, [total_distance] is positive, so [update_values]
    reports a consumption. *)
Theorem accumulate_positive_defines_output (fuel : nat)
    (self self' : MotorDriveConsumption) (d e : Q)
    (newvalues : gmap string Q) :
  reachable self ->
  0 < d ->
  _accumulate fuel self d e = Returned self' ->
  0 < consumption_window_total_distance self'
  /\ update_values self' newvalues !! "/MotorDrive/Consumption"%string
     = Some (consumption_window_total_energy self'
             / (consumption_window_total_distance self' / 1000)).
Proof.
  intros Hreach Hd Hrun.
  destruct (reachable_window_ok _ Hreach) as [Hok Htot].
  unfold _accumulate in Hrun.
  match type of Hrun with accumulate_loop _ ?s _ _ = _ =>
    assert (loop_holds_distance s d) as Hentry
  end.
  { split; [exact Hok|]. split; [lra|]. split; [|left; exact Hd].
    unfold distance_ahead. fields. lra. }
  destruct (accumulate_loop_rule (fun s d _ => loop_holds_distance s d)
              (fun s d e s' d' e' => accumulate_body_holds_distance s s' d e d' e')
              fuel _ _ _ _ Hentry Hrun)
    as (d' & e' & (_ & Hd' & Hahead & Hsome) & Hexit).
  assert (0 < consumption_window_total_distance self') as Hpos.
  { unfold distance_ahead in Hahead. destruct Hsome as [H | H]; lra. }
  split; [exact Hpos|].
  unfold update_values. apply Qltb_lt in Hpos. rewrite Hpos.
  apply lookup_insert_eq.
Qed.

Lemma accumulate_positive_defines_output_witness :
  reachable __init__
  /\ 0 < 100
  /\ _accumulate 5 __init__ 100 10 = Returned after_100m
  /\ 0 < consumption_window_total_distance after_100m
  /\ update_values after_100m ∅ !! "/MotorDrive/Consumption"%string
     = Some (consumption_window_total_energy after_100m
             / (consumption_window_total_distance after_100m / 1000)).
Proof.
  assert (0 < 100) as Hd by reflexivity.
  assert (_accumulate 5 __init__ 100 10 = Returned after_100m) as Hrun
    by (vm_compute; reflexivity).
  split; [exact reachable_init|]. split; [exact Hd|]. split; [exact Hrun|].
  exact (accumulate_positive_defines_output 5 __init__ after_100m 100 10 ∅
           reachable_init Hd Hrun).
Defined.

(** Every segment but the write segment is empty or exactly full. *)
Definition closed_segments_empty_or_full (self : MotorDriveConsumption) : Prop :=
  forall k seg,
    k <> consumption_window_index self ->
    consumption_window self !! k = Some seg ->
    seg_distance seg == 0 \/ seg_distance seg == WINDOW_SEGMENT_SIZE_M.

Lemma accumulate_body_closed_segments (self self' : MotorDriveConsumption)
    (d e d' e' : Q) :
  (window_ok self /\ 0 <= d) /\ closed_segments_empty_or_full self ->
  0 < d ->
  accumulate_body self d e = Some (self', d', e') ->
  (window_ok self' /\ 0 <= d') /\ closed_segments_empty_or_full self'.
Proof.
  intros [Hok Hclosed] Hd Hb.
  split; [exact (accumulate_body_window_ok _ _ _ _ _ _ Hok Hd Hb)|].
  destruct (accumulate_body_pass _ _ _ _ _ _ (proj1 Hok) Hd Hb)
    as [(_ & _ & Hidx & seg & Hseg & Hcw) | Hfill].
  - intros k s Hk Hs. rewrite Hidx in Hk. rewrite Hcw in Hs.
    rewrite list_lookup_insert_ne in Hs by (intros Heq; apply Hk; symmetry; exact Heq).
    exact (Hclosed k s Hk Hs).
  - destruct Hfill as (Hj & Hij & (filled & Hfilled & Hfull) & _ & Hothers & _).
    intros k s Hk Hs.
    destruct (decide (k = consumption_window_index self)) as [-> | Hki].
    + rewrite Hfilled in Hs. injection Hs as <-. right. exact Hfull.
    + rewrite (Hothers k Hki Hk) in Hs. exact (Hclosed k s Hki Hs).
Qed.

Lemma init_closed_segments : closed_segments_empty_or_full __init__.
Proof.
  intros k seg _ Hseg. apply lookup_replicate in Hseg as [-> _].
  left. reflexivity.
Qed.

(** X15.  In every reachable window each segment other than the write
    segment holds a distance of exactly 0 or exactly
    [WINDOW_SEGMENT_SIZE_M]: a segment is only left when it is full, and
    only emptied when the write index reaches it. *)
Theorem reachable_closed_segments (self : MotorDriveConsumption) :
  reachable self ->
  forall k seg,
    k <> consumption_window_index self ->
    consumption_window self !! k = Some seg ->
    seg_distance seg == 0 \/ seg_distance seg == WINDOW_SEGMENT_SIZE_M.
Proof.
  induction 1 as [|self self' fuel d e Hreach IH Hd Hrun].
  - exact init_closed_segments.
  - destruct (reachable_window_ok _ Hreach) as [Hok _].
    unfold _accumulate in Hrun.
    match type of Hrun with accumulate_loop _ ?s _ _ = _ =>
      assert ((window_ok s /\ 0 <= d) /\ closed_segments_empty_or_full s)
        as Hentry by (split; [split; [exact Hok | exact Hd] | exact IH])
    end.
    destruct (accumulate_loop_rule
                (fun s d _ => (window_ok s /\ 0 <= d)
                              /\ closed_segments_empty_or_full s)
                (fun s d e s' d' e' =>
                   accumulate_body_closed_segments s s' d e d' e')
                fuel _ _ _ _ Hentry Hrun)
      as (d' & e' & [_ Hclosed] & _).
    exact Hclosed.
Qed.

Lemma reachable_closed_segments_witness :
  reachable after_100m
  /\ forall k seg,
       k <> consumption_window_index after_100m ->
       consumption_window after_100m !! k = Some seg ->
       seg_distance seg == 0 \/ seg_distance seg == WINDOW_SEGMENT_SIZE_M.
Proof.
  split; [exact after_100m_reachable|].
  exact (reachable_closed_segments after_100m after_100m_reachable).
Defined.




(** ** More on [_on_gps_update] *)

(** A complete sample: the filter, then the smoother on its result, then
    [_accumulate] if a distance came back, then the point is retained. *)
Lemma gps_update_complete (M : MathLib) (fuel : nat)
    (self : MotorDriveConsumption) (utc : Z) (lat lon power : Q) :
  _on_gps_update fuel self (Some utc) (Some lat) (Some lon) (Some power)
  = outcome_bind
      (match (_calculate_distance_traveled self (mkPoint utc lat lon)
                (elapsed_ms self (mkPoint utc lat lon))).2 with
       | Some distance =>
           _accumulate fuel
             (_calculate_energy_used
                (_calculate_distance_traveled self (mkPoint utc lat lon)
                   (elapsed_ms self (mkPoint utc lat lon))).1
                power (elapsed_ms self (mkPoint utc lat lon))).1
             distance
             (_calculate_energy_used
                (_calculate_distance_traveled self (mkPoint utc lat lon)
                   (elapsed_ms self (mkPoint utc lat lon))).1
                power (elapsed_ms self (mkPoint utc lat lon))).2
       | None =>
           Returned
             (_calculate_energy_used
                (_calculate_distance_traveled self (mkPoint utc lat lon)
                   (elapsed_ms self (mkPoint utc lat lon))).1
                power (elapsed_ms self (mkPoint utc lat lon))).1
       end)
      (fun self3 => Returned (set_last_point self3 (Some (mkPoint utc lat lon)))).
Proof.
  unfold _on_gps_update. cbv zeta.
  destruct (_calculate_distance_traveled self (mkPoint utc lat lon)
              (elapsed_ms self (mkPoint utc lat lon))) as [self1 distance].
  cbn [fst snd].
  destruct (_calculate_energy_used self1 power
              (elapsed_ms self (mkPoint utc lat lon))) as [self2 energy].
  reflexivity.
Qed.

(** The smoother writes [power_ema] only. *)
Lemma smoother_frame (M : MathLib) (self : MotorDriveConsumption)
    (power : Q) (dt : Z) :
  same_window self (_calculate_energy_used self power dt).1
  /\ last_point (_calculate_energy_used self power dt).1 = last_point self
  /\ last_bearing (_calculate_energy_used self power dt).1 = last_bearing self
  /\ is_continuous (_calculate_energy_used self power dt).1 = is_continuous self.
Proof. repeat split. Qed.

Lemma smoother_ema_depends_on_ema (M : MathLib)
    (self self1 : MotorDriveConsumption) (power : Q) (dt : Z) :
  power_ema self1 = power_ema self ->
  power_ema (_calculate_energy_used self1 power dt).1
  = power_ema (_calculate_energy_used self power dt).1.
Proof.
  intros Hema. unfold _calculate_energy_used. cbv zeta. cbn [fst]. fields.
  rewrite Hema. reflexivity.
Qed.

(** X18.  A complete sample always becomes the new [last_point], whether the
    filter accepted or rejected it, and the smoother always runs: after the
    update [power_ema] is what the smoother makes of the power sample, and
    [last_bearing] and [is_continuous] are as the filter left them. *)
Theorem gps_update_retains_point (M : MathLib) (fuel : nat)
    (self self' : MotorDriveConsumption) (utc : Z) (lat lon power : Q) :
  _on_gps_update fuel self (Some utc) (Some lat) (Some lon) (Some power)
  = Returned self' ->
  last_point self' = Some (mkPoint utc lat lon)
  /\ power_ema self'
     = power_ema (_calculate_energy_used self power
                    (elapsed_ms self (mkPoint utc lat lon))).1
  /\ last_bearing self'
     = last_bearing (_calculate_distance_traveled self (mkPoint utc lat lon)
                       (elapsed_ms self (mkPoint utc lat lon))).1
  /\ is_continuous self'
     = is_continuous (_calculate_distance_traveled self (mkPoint utc lat lon)
                        (elapsed_ms self (mkPoint utc lat lon))).1.
Proof.
  rewrite gps_update_complete.
  set (point := mkPoint utc lat lon). set (dt := elapsed_ms self point).
  destruct (filter_frame M self point dt) as (_ & _ & Hema).
  pose proof (smoother_ema_depends_on_ema M self
                (_calculate_distance_traveled self point dt).1 power dt Hema)
    as Hsm.
  destruct (smoother_frame M (_calculate_distance_traveled self point dt).1
              power dt) as (_ & _ & Hb & Hc).
  destruct ((_calculate_distance_traveled self point dt).2) as [d|].
  - destruct (_accumulate fuel _ d _) as [self3| |] eqn:Hacc;
      cbn [outcome_bind]; try discriminate.
    intros [= <-].
    destruct (accumulate_frame _ _ _ _ _ Hacc) as (_ & Hb3 & Hc3 & He3).
    cbn [last_point last_bearing is_continuous power_ema set_last_point].
    split; [reflexivity|]. rewrite He3, Hb3, Hc3.
    split; [exact Hsm|]. split; [exact Hb | exact Hc].
  - cbn [outcome_bind]. intros [= <-].
    cbn [last_point last_bearing is_continuous power_ema set_last_point].
    split; [reflexivity|]. split; [exact Hsm|]. split; [exact Hb | exact Hc].
Qed.

Lemma gps_update_retains_point_witness :
  exists self',
    _on_gps_update 0 (at_origin_heading (Some 90)) (Some 1000%Z)
      (Some (1 # 1000000)) (Some 0) (Some 200)
    = Returned self'
    /\ last_point self' = Some north_11cm_1s
    /\ power_ema self'
       = power_ema (_calculate_energy_used (at_origin_heading (Some 90)) 200
                      (elapsed_ms (at_origin_heading (Some 90)) north_11cm_1s)).1
    /\ last_bearing self'
       = last_bearing (_calculate_distance_traveled (at_origin_heading (Some 90))
                         north_11cm_1s
                         (elapsed_ms (at_origin_heading (Some 90))
                            north_11cm_1s)).1
    /\ is_continuous self'
       = is_continuous (_calculate_distance_traveled
                          (at_origin_heading (Some 90)) north_11cm_1s
                          (elapsed_ms (at_origin_heading (Some 90))
                             north_11cm_1s)).1.
Proof.
  eexists. split; [vm_compute; reflexivity|].
  apply (gps_update_retains_point rational_math 0 (at_origin_heading (Some 90))
           _ 1000%Z (1 # 1000000) 0 200).
  vm_compute. reflexivity.
Defined.

(** X19.  A sample for which the filter returns no distance (the first one
    after a reset, one too slow, one with a jump of bearing) never changes
    the window: the update returns without running the loop, with the ring,
    the write index and both totals as they were. *)
Theorem gps_update_rejected_keeps_window (M : MathLib) (fuel : nat)
    (self : MotorDriveConsumption) (utc : Z) (lat lon power : Q) :
  (_calculate_distance_traveled self (mkPoint utc lat lon)
     (elapsed_ms self (mkPoint utc lat lon))).2 = None ->
  exists self',
    _on_gps_update fuel self (Some utc) (Some lat) (Some lon) (Some power)
    = Returned self'
    /\ consumption_window self' = consumption_window self
    /\ consumption_window_index self' = consumption_window_index self
    /\ consumption_window_total_distance self'
       = consumption_window_total_distance self
    /\ consumption_window_total_energy self'
       = consumption_window_total_energy self.
Proof.
  intros Hnone. rewrite gps_update_complete, Hnone. cbn [outcome_bind].
  eexists. split; [reflexivity|].
  destruct (filter_frame M self (mkPoint utc lat lon)
              (elapsed_ms self (mkPoint utc lat lon)))
    as ((H1 & H2 & H3 & H4) & _).
  fields. repeat split; assumption.
Qed.

Lemma gps_update_rejected_keeps_window_witness :
  (_calculate_distance_traveled (at_origin_heading (Some 90))
     (mkPoint 1000 (1 # 1000000) 0)
     (elapsed_ms (at_origin_heading (Some 90)) (mkPoint 1000 (1 # 1000000) 0))).2
  = None
  /\ exists self',
       _on_gps_update 0 (at_origin_heading (Some 90)) (Some 1000%Z)
         (Some (1 # 1000000)) (Some 0) (Some 200)
       = Returned self'
       /\ consumption_window self'
          = consumption_window (at_origin_heading (Some 90))
       /\ consumption_window_index self'
          = consumption_window_index (at_origin_heading (Some 90))
       /\ consumption_window_total_distance self'
          = consumption_window_total_distance (at_origin_heading (Some 90))
       /\ consumption_window_total_energy self'
          = consumption_window_total_energy (at_origin_heading (Some 90)).
Proof.
  assert ((_calculate_distance_traveled (at_origin_heading (Some 90))
             (mkPoint 1000 (1 # 1000000) 0)
             (elapsed_ms (at_origin_heading (Some 90))
                (mkPoint 1000 (1 # 1000000) 0))).2 = None) as Hnone
    by (vm_compute; reflexivity).
  split; [exact Hnone|].
  exact (gps_update_rejected_keeps_window rational_math 0
           (at_origin_heading (Some 90)) 1000%Z (1 # 1000000) 0 200 Hnone).
Defined.

(** X20.  After an update with a missing input, the next complete sample is
    a fresh start: whatever the fuel, it returns with the window exactly as
    it was before the gap, the sample as [last_point], its power as
    [power_ema], no [last_bearing] and [is_continuous] false. *)
Theorem gps_gap_then_sample (M : MathLib) (fuel1 fuel2 : nat)
    (self : MotorDriveConsumption) (utc1 : option Z)
    (lat1 lon1 power1 : option Q) (utc : Z) (lat lon power : Q) :
  power1 = None \/ utc1 = None \/ lat1 = None \/ lon1 = None ->
  exists self1 self2,
    _on_gps_update fuel1 self utc1 lat1 lon1 power1 = Returned self1
    /\ _on_gps_update fuel2 self1 (Some utc) (Some lat) (Some lon) (Some power)
       = Returned self2
    /\ consumption_window self2 = consumption_window self
    /\ consumption_window_index self2 = consumption_window_index self
    /\ consumption_window_total_distance self2
       = consumption_window_total_distance self
    /\ consumption_window_total_energy self2
       = consumption_window_total_energy self
    /\ last_point self2 = Some (mkPoint utc lat lon)
    /\ power_ema self2 = Some power
    /\ last_bearing self2 = None
    /\ is_continuous self2 = false.
Proof.
  intros Hmissing. exists (reset_filter self). eexists. split.
  - unfold _on_gps_update.
    destruct power1 as [p|]; [|reflexivity].
    destruct utc1 as [u|]; [|reflexivity].
    destruct lat1 as [la|]; [|reflexivity].
    destruct lon1 as [lo|]; [|reflexivity].
    destruct Hmissing as [H | [H | [H | H]]]; discriminate.
  - split; [reflexivity|]. repeat split.
Qed.

Lemma gps_gap_then_sample_witness :
  (@None Q = None \/ Some 0%Z = None \/ Some 0 = None \/ Some 0 = None)
  /\ exists self1 self2,
       _on_gps_update 0 after_100m (Some 0%Z) (Some 0) (Some 0) None
       = Returned self1
       /\ _on_gps_update 0 self1 (Some 60000%Z) (Some 0) (Some (1 # 1000))
            (Some 1000)
          = Returned self2
       /\ consumption_window self2 = consumption_window after_100m
       /\ consumption_window_index self2 = consumption_window_index after_100m
       /\ consumption_window_total_distance self2
          = consumption_window_total_distance after_100m
       /\ consumption_window_total_energy self2
          = consumption_window_total_energy after_100m
       /\ last_point self2 = Some (mkPoint 60000 0 (1 # 1000))
       /\ power_ema self2 = Some 1000
       /\ last_bearing self2 = None
       /\ is_continuous self2 = false.
Proof.
  assert (@None Q = None \/ Some 0%Z = None \/ Some 0 = None \/ Some 0 = None)
    as Hmissing by (left; reflexivity).
  split; [exact Hmissing|].
  exact (gps_gap_then_sample rational_math 0 0 after_100m (Some 0%Z) (Some 0)
           (Some 0) None 60000%Z 0 (1 # 1000) 1000 Hmissing).
Defined.

Lemma ring_shape_same_window (self self' : MotorDriveConsumption) :
  same_window self self' -> ring_shape self -> ring_shape self'.
Proof.
  intros (Hcw & Hidx & _) Hshape. unfold ring_shape in *.
  rewrite Hcw, Hidx. exact Hshape.
Qed.

(** The window the smoother hands on is the one the update started with. *)
Lemma gps_update_window_before_accumulate (M : MathLib)
    (self : MotorDriveConsumption) (point : Point) (power : Q) (dt : Z) :
  same_window self
    (_calculate_energy_used (_calculate_distance_traveled self point dt).1
       power dt).1.
Proof.
  destruct (filter_frame M self point dt) as ((H1 & H2 & H3 & H4) & _).
  repeat split; assumption.
Qed.

(** X21.  A GPS update keeps the shape of the ring and never raises
    [IndexError]: from an instance whose ring has its 50 segments and whose
    write index is one of them, an update with any inputs, when it returns,
    leaves such an instance, and with no amount of fuel does it end in an
    [IndexError]. *)
Theorem gps_update_keeps_ring_shape (M : MathLib)
    (self : MotorDriveConsumption) (utc : option Z) (lat lon power : option Q) :
  length (consumption_window self) = WINDOW_SEGMENT_COUNT ->
  (consumption_window_index self < WINDOW_SEGMENT_COUNT)%nat ->
  (forall fuel self',
     _on_gps_update fuel self utc lat lon power = Returned self' ->
     length (consumption_window self') = WINDOW_SEGMENT_COUNT
     /\ (consumption_window_index self' < WINDOW_SEGMENT_COUNT)%nat)
  /\ (forall fuel, _on_gps_update fuel self utc lat lon power <> IndexError).
Proof.
  intros Hlen Hi.
  assert (ring_shape self) as Hshape by (split; assumption).
  destruct power as [power|], utc as [utc|], lat as [lat|], lon as [lon|];
    try (split; [intros fuel self' [= <-]; exact Hshape
                | intros fuel; discriminate]).
  set (point := mkPoint utc lat lon).
  set (dt := elapsed_ms self point).
  pose proof (ring_shape_same_window _ _
                (gps_update_window_before_accumulate M self point power dt)
                Hshape) as Hshape2.
  assert (forall fuel,
    _on_gps_update fuel self (Some utc) (Some lat) (Some lon) (Some power)
    = outcome_bind
        (match (_calculate_distance_traveled self point dt).2 with
         | Some distance =>
             _accumulate fuel
               (_calculate_energy_used
                  (_calculate_distance_traveled self point dt).1 power dt).1
               distance
               (_calculate_energy_used
                  (_calculate_distance_traveled self point dt).1 power dt).2
         | None =>
             Returned
               (_calculate_energy_used
                  (_calculate_distance_traveled self point dt).1 power dt).1
         end)
        (fun self3 => Returned (set_last_point self3 (Some point)))) as Hupdate
    by (intros fuel; apply gps_update_complete).
  destruct ((_calculate_distance_traveled self point dt).2) as [d|].
  - split.
    + intros fuel self' Hrun. rewrite Hupdate in Hrun.
      destruct (_accumulate fuel _ d _) as [self3| |] eqn:Hacc;
        cbn [outcome_bind] in Hrun; try discriminate.
      injection Hrun as <-. unfold _accumulate in Hacc.
      match type of Hacc with accumulate_loop _ ?s _ _ = _ =>
        assert (ring_shape s) as Hentry by exact Hshape2
      end.
      exact (proj2 (accumulate_loop_ring_shape fuel _ _ _ Hentry) self3 Hacc).
    + intros fuel. rewrite Hupdate.
      destruct (_accumulate fuel _ d _) as [self3| |] eqn:Hacc;
        cbn [outcome_bind]; try discriminate.
      exfalso. unfold _accumulate in Hacc.
      match type of Hacc with accumulate_loop _ ?s _ _ = _ =>
        assert (ring_shape s) as Hentry by exact Hshape2
      end.
      exact (proj1 (accumulate_loop_ring_shape fuel _ _ _ Hentry) Hacc).
  - split.
    + intros fuel self' Hrun. rewrite Hupdate in Hrun.
      cbn [outcome_bind] in Hrun. injection Hrun as <-. exact Hshape2.
    + intros fuel. rewrite Hupdate. discriminate.
Qed.

Lemma gps_update_keeps_ring_shape_witness :
  length (consumption_window after_100m) = WINDOW_SEGMENT_COUNT
  /\ (consumption_window_index after_100m < WINDOW_SEGMENT_COUNT)%nat
  /\ (forall fuel self',
        _on_gps_update fuel after_100m (Some 0%Z) (Some 0) (Some 0) (Some 1000)
        = Returned self' ->
        length (consumption_window self') = WINDOW_SEGMENT_COUNT
        /\ (consumption_window_index self' < WINDOW_SEGMENT_COUNT)%nat)
  /\ (forall fuel,
        _on_gps_update fuel after_100m (Some 0%Z) (Some 0) (Some 0) (Some 1000)
        <> IndexError).
Proof.
  assert (length (consumption_window after_100m) = WINDOW_SEGMENT_COUNT)
    as Hlen by reflexivity.
  assert ((consumption_window_index after_100m < WINDOW_SEGMENT_COUNT)%nat)
    as Hi by (vm_compute; lia).
  split; [exact Hlen|]. split; [exact Hi|].
  exact (gps_update_keeps_ring_shape rational_math after_100m (Some 0%Z)
           (Some 0) (Some 0) (Some 1000) Hlen Hi).
Defined.

(** ** The elapsed time *)

(** X22.  For timestamps within a day, the elapsed time between the retained
    point and a new one is their difference, taken across midnight when the
    new timestamp is the smaller one; it is never negative and always less
    than a day. *)
Theorem elapsed_ms_wraps (self : MotorDriveConsumption) (prev point : Point) :
  last_point self = Some prev ->
  (0 <= utc_time prev < 86400000)%Z ->
  (0 <= utc_time point < 86400000)%Z ->
  (0 <= elapsed_ms self point < 86400000)%Z
  /\ ((utc_time prev <= utc_time point)%Z ->
      elapsed_ms self point = (utc_time point - utc_time prev)%Z)
  /\ ((utc_time point < utc_time prev)%Z ->
      elapsed_ms self point = (utc_time point - utc_time prev + 86400000)%Z).
Proof.
  intros Hprev Hp Hc. unfold elapsed_ms. rewrite Hprev.
  split; [apply Z.mod_pos_bound; lia|]. split; intros Hord.
  - replace (utc_time point - utc_time prev + 86400000)%Z
      with (utc_time point - utc_time prev + 1 * 86400000)%Z by lia.
    rewrite Z_mod_plus_full. apply Z.mod_small. lia.
  - apply Z.mod_small. lia.
Qed.

Lemma elapsed_ms_wraps_witness :
  last_point (set_last_point __init__ (Some (mkPoint 86399900 0 0)))
  = Some (mkPoint 86399900 0 0)
  /\ (0 <= 86399900 < 86400000)%Z
  /\ (0 <= 50 < 86400000)%Z
  /\ elapsed_ms (set_last_point __init__ (Some (mkPoint 86399900 0 0)))
       (mkPoint 50 0 0) = 150%Z.
Proof.
  assert ((0 <= 86399900 < 86400000)%Z) as Hp by lia.
  assert ((0 <= 50 < 86400000)%Z) as Hc by lia.
  split; [reflexivity|]. split; [exact Hp|]. split; [exact Hc|].
  destruct (elapsed_ms_wraps
              (set_last_point __init__ (Some (mkPoint 86399900 0 0)))
              (mkPoint 86399900 0 0) (mkPoint 50 0 0) eq_refl Hp Hc)
    as (_ & _ & Hwrap).
  rewrite Hwrap; [reflexivity|]. cbn [utc_time]. lia.
Defined.

(** ** The published path *)

(** X23.  [update_values] only ever writes a path that [get_output]
    declares: every other entry of the dictionary is left as it is. *)
Theorem update_values_writes_declared_path (self : MotorDriveConsumption)
    (newvalues : gmap string Q) (path : string) :
  path ∉ (get_output.*1) ->
  update_values self newvalues !! path = newvalues !! path.
Proof.
  intros Hpath. unfold update_values.
  destruct (Qltb 0 (consumption_window_total_distance self)); [|reflexivity].
  apply lookup_insert_ne. intros Heq. apply Hpath. rewrite <- Heq.
  unfold get_output. cbn [fmap list_fmap fst]. apply list_elem_of_here.
Qed.

Lemma update_values_writes_declared_path_witness :
  ("/Dc/Battery/Power"%string ∉ (get_output.*1))
  /\ update_values after_100m {["/Dc/Battery/Power"%string := 240]}
       !! "/Dc/Battery/Power"%string
     = ({["/Dc/Battery/Power"%string := 240]} : gmap string Q)
         !! "/Dc/Battery/Power"%string.
Proof.
  assert ("/Dc/Battery/Power"%string ∉ (get_output.*1)) as Hpath.
  { intros Hin. apply list_elem_of_singleton in Hin. discriminate. }
  split; [exact Hpath|].
  exact (update_values_writes_declared_path after_100m
           {["/Dc/Battery/Power"%string := 240]} "/Dc/Battery/Power" Hpath).
Defined.
